(** * ZipDatastore: a CID-keyed datastore persisted as a ZIP archive

    Shallow embedding of [zipcar.go] (the revision that stages mutations
    in memory and rewrites the archive on [Close]) and the properties of
    its put/get/has/delete/size/close engine.

    Conventions of the embedding:
    - a Go map [map[string]T] with a nilable [T] is a
      [gmap string (option T)]: a key can be absent, present with [nil]
      ([Some None]) or present with a value ([Some (Some v)]);
      indexing [m[k]] yields the zero value [nil] on absent keys
      ([go_index]);
    - a [[]byte] is an [option (list byte)], [None] being the nil slice
      (the code tests [!= nil], which an empty non-nil slice passes);
    - Go's [(value, error)] results are [result] values, a lone [error]
      is an [option error];
    - methods on [*ZipDatastore] take the store and return the new one;
    - the backing file is a [Disk] value threaded through [NewDatastore]
      and [Close]; what the operating system and the archive codec
      answer is read from an [Env];
    - [range] over a map visits the entries in an order chosen by the
      runtime ([GoRuntime]). *)

From stdpp Require Import gmap strings list fin_maps.
From Stdlib Require Import ZArith Strings.Byte.

Open Scope Z_scope.

(** ** Go values *)

Abbreviation bytes := (list Byte.byte).

(** [ds.ErrNotFound], [ErrUnimplemented], [zip.ErrFormat], and the
    errors of the collaborators (CID codec, [os], [archive/zip]),
    told apart by a code. *)
Inductive error : Type :=
  | ErrNotFound
  | ErrUnimplemented
  | ErrFormat
  | ErrExternal (code : nat).

Inductive result (A : Type) : Type :=
  | Ok (a : A)
  | Err (e : error).
Arguments Ok {A} a.
Arguments Err {A} e.

(** [m[k]] on a Go map whose values are nilable. *)
Definition go_index {V : Type} (m : gmap string (option V)) (k : string)
  : option V :=
  match m !! k with
  | Some v => v
  | None => None
  end.

(** [x != nil] *)
Definition not_nil {V : Type} (x : option V) : bool :=
  match x with
  | Some _ => true
  | None => false
  end.

(** ** The CID codec (external collaborators [go-cid], [go-ipfs-ds-help],
       [go-multibase]) *)

(** [ds.Key] is a string wrapper. *)
Abbreviation Key := string.

(** The two [mbase.Encoding] constants the store uses. *)
Inductive Encoding : Type :=
  | Base58BTC
  | Base32.

Class CidCodec : Type := {
  Cid : Type;
  DsKeyToCid : Key -> result Cid;              (* dshelp.DsKeyToCid *)
  Version : Cid -> Z;                          (* cid.Version(), a uint64 *)
  StringOfBase : Cid -> Encoding -> result string;  (* cid.StringOfBase *)
}.

(** ** The Go runtime: iteration order of [range] over a map *)

Class GoRuntime : Type := {
  map_range : forall {V : Type}, gmap string V -> list (string * V);
  map_range_perm :
    forall (V : Type) (m : gmap string V), map_range m ≡ₚ map_to_list m;
}.

(** ** Archive entries as the reader hands them out ([*zip.File]) *)

(** [io.ReadCloser] of an entry: what [ioutil.ReadAll] returns on it, the
    bytes read so far (never a nil slice) and the error that stopped the
    read, if any. *)
Record ReadCloser : Type := {
  ReadAll : bytes * option error;
}.

(** The answer of [f.Open()] is a field of the entry: it is the same
    every time the entry is opened during the session. *)
Record ZipFile : Type := {
  Name : string;                 (* f.Name *)
  Size : Z;                      (* f.FileInfo().Size() *)
  Open : result ReadCloser;      (* f.Open() *)
}.

(** ** The store *)

Record ZipDatastore : Type := {
  index : gmap string (option ZipFile);
  cache : gmap string (option bytes);
  modified : bool;
}.

Definition set_cache (s : ZipDatastore) (k : string) (v : option bytes)
  : ZipDatastore :=
  {| index := index s; cache := <[k := v]> (cache s); modified := modified s |}.

Definition set_index (s : ZipDatastore) (k : string) (f : option ZipFile)
  : ZipDatastore :=
  {| index := <[k := f]> (index s); cache := cache s; modified := modified s |}.

Definition set_modified (s : ZipDatastore) (b : bool) : ZipDatastore :=
  {| index := index s; cache := cache s; modified := b |}.

Section Store.

Context `{codec : CidCodec}.

Definition dsKeyToCidString (key : Key) : result string :=
  match DsKeyToCid key with
  | Err e => Err e
  | Ok cid =>
      if Version cid =? 0
      then StringOfBase cid Base58BTC
      else StringOfBase cid Base32
  end.

Definition has (s : ZipDatastore) (cidStr : string) : bool * option error :=
  (not_nil (go_index (cache s) cidStr) || not_nil (go_index (index s) cidStr),
   None).

Definition Put (s : ZipDatastore) (key : Key) (value : option bytes)
  : ZipDatastore * option error :=
  match dsKeyToCidString key with
  | Err e => (s, Some e)
  | Ok cidStr =>
      if fst (has s cidStr)
      then (s, None)                 (* dupe, assume CID is correct and ignore *)
      else (set_cache (set_modified s true) cidStr value, None)
  end.

Definition Get (s : ZipDatastore) (key : Key)
  : ZipDatastore * result (option bytes) :=
  match dsKeyToCidString key with
  | Err e => (s, Err e)
  | Ok cidStr =>
      match go_index (cache s) cidStr with
      | Some v => (s, Ok (Some v))
      | None =>
          match go_index (index s) cidStr with
          | None => (s, Err ErrNotFound)
          | Some f =>
              match Open f with
              | Err e => (s, Err e)
              | Ok rc =>
                  let '(data, err) := ReadAll rc in
                  let s' := set_cache s cidStr (Some data) in
                  match err with
                  | Some e => (s', Err e)
                  | None => (s', Ok (go_index (cache s') cidStr))
                  end
              end
          end
      end
  end.

Definition Has (s : ZipDatastore) (key : Key) : bool * option error :=
  match dsKeyToCidString key with
  | Err e => (false, Some e)
  | Ok cidStr => has s cidStr
  end.

Definition Delete (s : ZipDatastore) (key : Key)
  : ZipDatastore * option error :=
  match dsKeyToCidString key with
  | Err e => (s, Some e)
  | Ok cidStr => (set_index (set_cache s cidStr None) cidStr None, None)
  end.

Definition GetSize (s : ZipDatastore) (key : Key) : result Z :=
  match dsKeyToCidString key with
  | Err e => Err e
  | Ok cidStr =>
      match go_index (cache s) cidStr with
      | Some v => Ok (Z.of_nat (length v))
      | None =>
          match go_index (index s) cidStr with
          | None => Err ErrNotFound
          | Some f => Ok (Size f)
          end
      end
  end.

(** [Query] is not implemented. *)
Definition Query (s : ZipDatastore) : result unit := Err ErrUnimplemented.

End Store.

(** ** The backing file and the environment *)

(** One archive entry as stored in the file: its name and its exact
    payload bytes. *)
Record Entry : Type := {
  entry_name : string;
  entry_data : bytes;
}.

(** What the file at the store's path holds: a well-formed container with
    its entries in directory order, or bytes that [zip.NewReader] rejects
    (among them the empty file that [O_CREATE] leaves behind). *)
Inductive FileContent : Type :=
  | ZipArchive (entries : list Entry)
  | NotZip.

(** [None]: no file at the path. *)
Abbreviation Disk := (option FileContent).

(** The answers of [os] and [archive/zip] during one session.  An
    [option error] field is the error of that call, [None] when the call
    succeeds. *)
Record Env : Type := {
  stat_err : option error;          (* os.Stat, other than "does not exist" *)
  open_file_err : option error;     (* os.OpenFile(path, O_CREATE|O_RDWR) *)
  new_reader_err : option error;    (* zip.NewReader on a well-formed file *)
  entry_open : Entry -> result ReadCloser;      (* f.Open() of that entry *)
  file_close_err : option error;    (* zipDs.file.Close() *)
  truncate_err : option error;      (* os.OpenFile(name, O_TRUNC|O_CREATE|O_WRONLY) *)
  create_header_err : string -> option error;   (* writer.CreateHeader *)
  write_err : string -> bytes -> option error;  (* f.Write(bytes) *)
  writer_close_err : option error;  (* deferred writer.Close() *)
  new_file_close_err : option error;(* deferred zipDs.file.Close() *)
  residue : FileContent;            (* what a failed rewrite leaves in the file *)
}.

(** The [*zip.File] the reader builds for an entry; the size is the
    uncompressed size recorded in the directory. *)
Definition zip_File (env : Env) (e : Entry) : ZipFile :=
  {| Name := entry_name e;
     Size := Z.of_nat (length (entry_data e));
     Open := entry_open env e |}.

(** [zip.NewReader(file, size)] and its [reader.File]. *)
Definition zip_NewReader (env : Env) (c : FileContent) : result (list ZipFile) :=
  match c with
  | NotZip => Err ErrFormat
  | ZipArchive entries =>
      match new_reader_err env with
      | Some e => Err e
      | None => Ok (map (zip_File env) entries)
      end
  end.

Inductive StatResult : Type :=
  | StatOk
  | StatNotExist
  | StatErr (e : error).

Definition os_Stat (env : Env) (disk : Disk) : StatResult :=
  match stat_err env with
  | Some e => StatErr e
  | None => match disk with Some _ => StatOk | None => StatNotExist end
  end.

(** The loop [for _, f := range reader.File { zipDs.index[f.Name] = f }]. *)
Definition read_keys (files : list ZipFile) (s : ZipDatastore) : ZipDatastore :=
  fold_left (fun z f => set_index z (Name f) (Some f)) files s.

Definition NewDatastore (env : Env) (disk : Disk) : result ZipDatastore * Disk :=
  let zipDs := {| index := ∅; cache := ∅; modified := false |} in
  match os_Stat env disk with
  | StatErr e => (Err e, disk)
  | st =>
      let exists_ := match st with StatNotExist => false | _ => true end in
      match open_file_err env with
      | Some e => (Err e, disk)
      | None =>
          match disk with
          | None => (Ok zipDs, Some NotZip)            (* O_CREATE: empty file *)
          | Some c =>
              if exists_ then
                match zip_NewReader env c with
                | Err e => (Err e, disk)
                | Ok files => (Ok (read_keys files zipDs), disk)
                end
              else (Ok zipDs, disk)
          end
      end
  end.

Section Close.

Context `{rt : GoRuntime}.

(** First loop of [Close]: load into the cache what is not there yet.
    The error of [ioutil.ReadAll] is assigned and never looked at. *)
Fixpoint load_loop (l : list (string * option ZipFile))
    (c : gmap string (option bytes)) : result (gmap string (option bytes)) :=
  match l with
  | [] => Ok c
  | (cidStr, None) :: l' => load_loop l' c                       (* deleted *)
  | (cidStr, Some f) :: l' =>
      if not_nil (go_index c cidStr) then load_loop l' c
      else
        match Open f with
        | Err e => Err e
        | Ok rc =>
            let '(data, _) := ReadAll rc in
            load_loop l' (<[cidStr := Some data]> c)
        end
  end.

(** Second loop of [Close]: one entry per non-nil cache value, appended to
    the new container in iteration order. *)
Fixpoint write_loop (env : Env) (l : list (string * option bytes))
    (w : list Entry) : result (list Entry) :=
  match l with
  | [] => Ok w
  | (cidStr, None) :: l' => write_loop env l' w                  (* deleted *)
  | (cidStr, Some data) :: l' =>
      match create_header_err env cidStr with
      | Some e => Err e
      | None =>
          match write_err env cidStr data with
          | Some e => Err e
          | None =>
              write_loop env l'
                (w ++ [{| entry_name := cidStr; entry_data := data |}])
          end
      end
  end.

(** The deferred [if err == nil { err = ierr }]. *)
Definition keep_first (err ierr : option error) : option error :=
  match err with
  | Some e => Some e
  | None => ierr
  end.

(** [Close] returns its error and the file it leaves.  The file is
    untouched on every return before the truncating [os.OpenFile] (taken
    to leave the file alone when it fails); once the file is truncated, a
    run without error leaves the container made of the written entries,
    and any error leaves [residue env], which the code does not
    determine. *)
Definition Close (env : Env) (s : ZipDatastore) (disk : Disk)
  : option error * Disk :=
  let loaded :=
    if modified s then load_loop (map_range (index s)) (cache s)
    else Ok (cache s) in
  match loaded with
  | Err e => (Some e, disk)
  | Ok cache' =>
      let err := file_close_err env in
      if not_nil err || negb (modified s) then
        (err, disk)      (* if it wasn't modified, no need for the rewrite below *)
      else
        match truncate_err env with
        | Some e => (Some e, disk)
        | None =>
            let written := write_loop env (map_range cache') [] in
            let err := match written with Ok _ => None | Err e => Some e end in
            let err := keep_first err (writer_close_err env) in
            let err := keep_first err (new_file_close_err env) in
            match written, err with
            | Ok w, None => (None, Some (ZipArchive w))
            | _, _ => (err, Some (residue env))
            end
        end
  end.

End Close.

(** The entries a rewrite produces from the visited cache pairs when no
    write fails: the pairs with a non-nil value, in order. *)
Definition live_entries (l : list (string * option bytes)) : list Entry :=
  omap (fun p => match snd p with
                 | Some data => Some {| entry_name := fst p; entry_data := data |}
                 | None => None
                 end) l.

(** ** Sessions: sequences of operations on an open store *)

Inductive Op : Type :=
  | OpPut (key : Key) (value : option bytes)
  | OpGet (key : Key)
  | OpHas (key : Key)
  | OpDelete (key : Key)
  | OpGetSize (key : Key).

(** [Get], [Has] and [GetSize]: the operations that are neither put nor
    delete. *)
Definition is_read (op : Op) : bool :=
  match op with
  | OpPut _ _ | OpDelete _ => false
  | OpGet _ | OpHas _ | OpGetSize _ => true
  end.

Section Sessions.

Context `{codec : CidCodec}.

(** The store after one call; results and errors are dropped. *)
Definition run_op (s : ZipDatastore) (op : Op) : ZipDatastore :=
  match op with
  | OpPut key value => fst (Put s key value)
  | OpGet key => fst (Get s key)
  | OpHas key => s
  | OpDelete key => fst (Delete s key)
  | OpGetSize key => s
  end.

Definition run_ops (s : ZipDatastore) (ops : list Op) : ZipDatastore :=
  fold_left run_op ops s.

(** A batch of puts, in order. *)
Definition put_all (s : ZipDatastore) (recs : list (Key * option bytes))
  : ZipDatastore :=
  fold_left (fun z r => fst (Put z (fst r) (snd r))) recs s.

End Sessions.

(** The entries of the container on disk, none when there is no file or
    no container. *)
Definition disk_entries (disk : Disk) : list Entry :=
  match disk with
  | Some (ZipArchive entries) => entries
  | _ => []
  end.

(** The store a session starts from, or an empty one when the open
    fails. *)
Definition opened (r : result ZipDatastore * Disk) : ZipDatastore :=
  match fst r with
  | Ok s => s
  | Err _ => {| index := ∅; cache := ∅; modified := false |}
  end.

(** The entry reads back in full. *)
Definition reads_back (env : Env) (e : Entry) : Prop :=
  entry_open env e = Ok {| ReadAll := (entry_data e, None) |}.

(** An environment in which no call fails and every entry reads back in
    full. *)
Definition quiet_env : Env :=
  {| stat_err := None;
     open_file_err := None;
     new_reader_err := None;
     entry_open := fun e => Ok {| ReadAll := (entry_data e, None) |};
     file_close_err := None;
     truncate_err := None;
     create_header_err := fun _ => None;
     write_err := fun _ _ => None;
     writer_close_err := None;
     new_file_close_err := None;
     residue := NotZip |}.

(** ** Test vectors

    CIDs of the raw blocks used by the repository's tests, with the
    datastore keys [dshelp.CidToDsKey] gives them, and one version-0
    identifier.  [vector_codec] gives these keys the names the real
    codec gives them and rejects every other key. *)

Module Vectors.

Definition blob (s : string) : bytes := String.list_byte_of_string s.

Definition key_a : Key := "/AFKREIDBXZK2RYXWWTQXEM4L3XYYJVW35YU4TCCT4CQEQXWO47ZHXGXQWQ".
Definition key_b : Key := "/AFKREIEBZRNROAMGOS2ADNBPGW5APO3Z4IISHHBDX77GLDNBK57D4ZDIO4".
Definition key_c : Key := "/AFKREIFW7PLHL6MOFK6SFVHNFH64QMKQ73OEQWL6SLORU6REHAOUJITUKE".
Definition key_z : Key := "/AFKREIBNNTGTJLL26NRRLHWUXPQYYDSDY2A7MBUHPWP7ZFVWEIAHEDLSSE".
Definition key_v0 : Key := "/CIQGDPSVVDRPNNHBOIZYXXPRQTLNX3RJZGEFHYFAJBPM5Z7SPONPBNA".

Definition name_a : string := "bafkreidbxzk2ryxwwtqxem4l3xyyjvw35yu4tcct4cqeqxwo47zhxgxqwq".
Definition name_b : string := "bafkreiebzrnroamgos2adnbpgw5apo3z4iishhbdx77gldnbk57d4zdio4".
Definition name_c : string := "bafkreifw7plhl6mofk6sfvhnfh64qmkq73oeqwl6sloru6rehaoujituke".
Definition name_z : string := "bafkreibnntgtjll26nrrlhwuxpqyydsdy2a7mbuhpwp7zfvweiahedlsse".
Definition name_v0 : string := "QmUvCb82gRbSrksBBhTU21fUaMkMUC1rHLY7RtZeZjCYWo".

(** A decoded identifier of the table: its version and its string form. *)
Definition table : list (Key * (Z * string)) :=
  [ (key_a, (1, name_a)); (key_b, (1, name_b)); (key_c, (1, name_c));
    (key_z, (1, name_z)); (key_v0, (0, name_v0)) ].

Fixpoint assoc (k : Key) (l : list (Key * (Z * string))) : option (Z * string) :=
  match l with
  | [] => None
  | (k', c) :: l' => if String.eqb k k' then Some c else assoc k l'
  end.

#[local] Instance vector_codec : CidCodec :=
  {| Cid := Z * string;
     DsKeyToCid := fun key =>
       match assoc key table with
       | Some c => Ok c
       | None => Err (ErrExternal 1)
       end;
     Version := fst;
     StringOfBase := fun c enc =>
       match fst c, enc with
       | 0, Base58BTC => Ok (snd c)
       | 0, _ => Err (ErrExternal 2)
       | _, Base32 => Ok (snd c)
       | _, _ => Err (ErrExternal 3)
       end |}.

(** A runtime that ranges over maps in the order of [map_to_list]. *)
#[local] Instance listing_rt : GoRuntime :=
  {| map_range := fun V m => map_to_list m;
     map_range_perm := fun V m => reflexivity (map_to_list m) |}.

(** An archive holding the three raw blocks. *)
Definition abc_entries : list Entry :=
  [ {| entry_name := name_a; entry_data := blob "aaaa" |};
    {| entry_name := name_b; entry_data := blob "bbbb" |};
    {| entry_name := name_c; entry_data := blob "cccc" |} ].

(** A session in which the first read of the entry [name_a] breaks off
    after two bytes, and nothing else fails. *)
Definition flaky_env : Env :=
  {| stat_err := None;
     open_file_err := None;
     new_reader_err := None;
     entry_open := fun e =>
       if String.eqb (entry_name e) name_a
       then Ok {| ReadAll := (firstn 2 (entry_data e), Some (ErrExternal 5)) |}
       else Ok {| ReadAll := (entry_data e, None) |};
     file_close_err := None;
     truncate_err := None;
     create_header_err := fun _ => None;
     write_err := fun _ _ => None;
     writer_close_err := None;
     new_file_close_err := None;
     residue := NotZip |}.

(** The test scenario of the repository: build a new archive with the
    three blocks, close, reopen, delete the second, close, reopen. *)
Definition build_ops : list Op :=
  [ OpPut key_a (Some (blob "aaaa"));
    OpPut key_b (Some (blob "bbbb"));
    OpPut key_c (Some (blob "cccc")) ].

Definition built_store : ZipDatastore :=
  run_ops (opened (NewDatastore quiet_env None)) build_ops.
Definition built_disk : Disk :=
  snd (Close quiet_env built_store (snd (NewDatastore quiet_env None))).

Definition reopened_store : ZipDatastore :=
  opened (NewDatastore quiet_env built_disk).
Definition deleted_store : ZipDatastore :=
  run_ops reopened_store [OpDelete key_b].
Definition deleted_disk : Disk :=
  snd (Close quiet_env deleted_store (snd (NewDatastore quiet_env built_disk))).

Definition final_store : ZipDatastore :=
  opened (NewDatastore quiet_env deleted_disk).

End Vectors.

(** ** The CID utility methods

    [PutCid], [GetCid], [HasCid], [DeleteCid] and [GetSizeCid] call the
    method of the same name with [dshelp.CidToDsKey(cid)]. *)

Section CidMethods.

Context `{codec : CidCodec}.
Variable CidToDsKey : Cid -> Key.

Definition PutCid (s : ZipDatastore) (cid : Cid) (value : option bytes)
  : ZipDatastore * option error :=
  Put s (CidToDsKey cid) value.

Definition GetCid (s : ZipDatastore) (cid : Cid)
  : ZipDatastore * result (option bytes) :=
  Get s (CidToDsKey cid).

Definition HasCid (s : ZipDatastore) (cid : Cid) : bool * option error :=
  Has s (CidToDsKey cid).

Definition DeleteCid (s : ZipDatastore) (cid : Cid)
  : ZipDatastore * option error :=
  Delete s (CidToDsKey cid).

Definition GetSizeCid (s : ZipDatastore) (cid : Cid) : result Z :=
  GetSize s (CidToDsKey cid).

End CidMethods.

(** The calls to [Put] in a session. *)
Definition is_put (op : Op) : bool :=
  match op with
  | OpPut _ _ => true
  | _ => false
  end.

(** The index and the cache agree with the archive: every entry the
    index refers to reads in full, has the size of its payload, and the
    cache holds no other bytes under its name. *)
Definition index_coherent (s : ZipDatastore) : Prop :=
  ∀ n f, index s !! n = Some (Some f) →
    ∃ data, Open f = Ok {| ReadAll := (data, None) |} ∧
            Size f = Z.of_nat (length data) ∧
            ∀ v, cache s !! n = Some (Some v) → v = data.

(** More test vectors: the key of an identifier, an archive with a
    repeated name, a session in which an entry cannot be opened, and a
    session that puts a fourth block and deletes the second. *)
Module ExtraVectors.

Import Vectors.

Fixpoint key_of (c : Z * string) (l : list (Key * (Z * string))) : Key :=
  match l with
  | [] => ""
  | (k, c') :: l' =>
      if (fst c =? fst c') && String.eqb (snd c) (snd c') then k
      else key_of c l'
  end.

Definition vector_CidToDsKey (c : Z * string) : Key := key_of c table.

Definition cid_a : Z * string := (1, name_a).

Definition entry_a : Entry := {| entry_name := name_a; entry_data := blob "aaaa" |}.
Definition entry_b : Entry := {| entry_name := name_b; entry_data := blob "bbbb" |}.
Definition stale_a : Entry := {| entry_name := name_a; entry_data := blob "xy" |}.

Definition abc_disk : Disk := Some (ZipArchive abc_entries).
Definition abc_store : ZipDatastore := opened (NewDatastore quiet_env abc_disk).

(** The entry [name_a] cannot be opened; nothing else fails. *)
Definition broken_env : Env :=
  {| stat_err := None;
     open_file_err := None;
     new_reader_err := None;
     entry_open := fun e =>
       if String.eqb (entry_name e) name_a
       then Err (ErrExternal 7)
       else Ok {| ReadAll := (entry_data e, None) |};
     file_close_err := None;
     truncate_err := None;
     create_header_err := fun _ => None;
     write_err := fun _ _ => None;
     writer_close_err := None;
     new_file_close_err := None;
     residue := NotZip |}.

Definition mixed_ops : list Op :=
  [ OpPut key_a (Some (blob "xy")); OpGet key_a; OpDelete key_b ].

Definition modify_ops : list Op :=
  [ OpPut key_z (Some (blob "zzzz")); OpDelete key_b ].

End ExtraVectors.

(** * Properties *)

(** ** Go map indexing *)

Lemma go_index_insert_eq {V : Type} (m : gmap string (option V)) k v :
  go_index (<[k := v]> m) k = v.
Proof. unfold go_index. by rewrite lookup_insert_eq. Qed.

Lemma go_index_insert_ne {V : Type} (m : gmap string (option V)) k k' v :
  k ≠ k' → go_index (<[k := v]> m) k' = go_index m k'.
Proof. intros Hne. unfold go_index. by rewrite lookup_insert_ne. Qed.

Lemma go_index_empty {V : Type} k : go_index (∅ : gmap string (option V)) k = None.
Proof. unfold go_index. by rewrite lookup_empty. Qed.

Lemma go_index_Some {V : Type} (m : gmap string (option V)) k v :
  go_index m k = Some v ↔ m !! k = Some (Some v).
Proof.
  unfold go_index. destruct (m !! k) as [o|]; split; intros H;
    try discriminate; congruence.
Qed.

(** The paths through [Get]. *)
Ltac Get_cases s key :=
  unfold Get;
  let cidStr := fresh "cidStr" in
  let f := fresh "f" in
  let rc := fresh "rc" in
  destruct (dsKeyToCidString key) as [cidStr|]; [|done];
  destruct (go_index (cache s) cidStr); [done|];
  destruct (go_index (index s) cidStr) as [f|]; [|done];
  destruct (Open f) as [rc|]; [|done];
  destruct (ReadAll rc) as [? [?|]]; done.

Section StoreProperties.

Context `{codec : CidCodec}.

(** ** Canonical names *)

(** C6. The canonical name of a key that decodes to an identifier is what
    the identifier's string encoder returns for base58btc when the
    version is 0 and for base32 for every other version; a key that does
    not decode is rejected with the decoder's error. *)
Theorem dsKeyToCidString_canonical (key : Key) :
  match DsKeyToCid key with
  | Ok c =>
      dsKeyToCidString key =
        StringOfBase c (if decide (Version c = 0) then Base58BTC else Base32)
  | Err e => dsKeyToCidString key = Err e
  end.
Proof.
  unfold dsKeyToCidString.
  destruct (DsKeyToCid key) as [c|e]; [|reflexivity].
  destruct (Z.eqb_spec (Version c) 0) as [Hv|Hv]; case_decide; done.
Qed.

(** ** The dirty flag *)

Lemma read_keys_modified files s : modified (read_keys files s) = modified s.
Proof.
  revert s. induction files as [|f files IH]; intros s; [done|].
  unfold read_keys in *. simpl. by rewrite IH.
Qed.

Lemma read_keys_cache files s : cache (read_keys files s) = cache s.
Proof.
  revert s. induction files as [|f files IH]; intros s; [done|].
  unfold read_keys in *. simpl. by rewrite IH.
Qed.

Lemma NewDatastore_fresh env disk s disk' :
  NewDatastore env disk = (Ok s, disk') →
  modified s = false ∧ cache s = ∅.
Proof.
  unfold NewDatastore. intros H.
  destruct (os_Stat env disk); destruct (open_file_err env);
    destruct disk as [c|]; simplify_eq; try done;
    destruct (zip_NewReader env c); simplify_eq;
    by rewrite read_keys_modified, read_keys_cache.
Qed.

Lemma Put_modified s key value :
  modified s = true → modified (fst (Put s key value)) = true.
Proof.
  intros H. unfold Put.
  destruct (dsKeyToCidString key) as [cidStr|]; [|done].
  by destruct (fst (has s cidStr)).
Qed.

Lemma Put_new_marks_modified s key cidStr value :
  dsKeyToCidString key = Ok cidStr →
  fst (has s cidStr) = false →
  modified (fst (Put s key value)) = true.
Proof. intros Hk Hh. unfold Put. by rewrite Hk, Hh. Qed.

Lemma Get_modified s key : modified (fst (Get s key)) = modified s.
Proof. Get_cases s key. Qed.

Lemma Delete_modified s key : modified (fst (Delete s key)) = modified s.
Proof. unfold Delete. by destruct (dsKeyToCidString key). Qed.

(** Once set, the flag stays set through every operation. *)
Lemma run_op_modified s op :
  modified s = true → modified (run_op s op) = true.
Proof.
  intros H. destruct op; simpl; try done.
  - by apply Put_modified.
  - by rewrite Get_modified.
  - by rewrite Delete_modified.
Qed.

Lemma run_ops_modified s ops :
  modified s = true → modified (run_ops s ops) = true.
Proof.
  revert s. induction ops as [|op ops IH]; intros s H; [done|].
  simpl. apply IH. by apply run_op_modified.
Qed.

(** Reads leave the flag as it is. *)
Lemma run_reads_modified s ops :
  forallb is_read ops = true → modified (run_ops s ops) = modified s.
Proof.
  revert s. induction ops as [|op ops IH]; intros s H; [done|].
  simpl in H. apply andb_prop in H as [Hop Hops].
  simpl. rewrite IH by done.
  destruct op; simpl in *; try done. apply Get_modified.
Qed.

(** ** Operations within one session *)

(** C5. After [Delete] of a valid key, in any store state (whether or
    not the key existed), [Has] answers false and [Get] fails with
    [ErrNotFound]. *)
Theorem Delete_then_miss (s : ZipDatastore) (key : Key) (cidStr : string) :
  dsKeyToCidString key = Ok cidStr →
  snd (Delete s key) = None ∧
  Has (fst (Delete s key)) key = (false, None) ∧
  snd (Get (fst (Delete s key)) key) = Err ErrNotFound.
Proof.
  intros Hk. unfold Delete, Has, Get, has.
  by repeat (rewrite ?Hk, ?go_index_insert_eq; simpl).
Qed.

(** C10. A tombstone does not block a later put: after [Delete] then
    [Put] of a non-empty payload under the same valid key, the put
    succeeds, [Get] returns that payload and [Has] answers true. *)
Theorem Put_after_Delete (s : ZipDatastore) (key : Key) (cidStr : string)
    (v : bytes) :
  dsKeyToCidString key = Ok cidStr →
  v ≠ [] →
  let s1 := fst (Delete s key) in
  let s2 := fst (Put s1 key (Some v)) in
  snd (Delete s key) = None ∧
  snd (Put s1 key (Some v)) = None ∧
  Get s2 key = (s2, Ok (Some v)) ∧
  Has s2 key = (true, None).
Proof.
  intros Hk _. unfold Delete, Put, Has, Get, has.
  by repeat (rewrite ?Hk, ?go_index_insert_eq; simpl).
Qed.

(** X23. When the name does not exist in the store yet and the first
    payload is not the nil slice, both puts return no error, the second
    changes nothing and [Get] returns the first payload. *)
Theorem Put_twice_first_wins (s : ZipDatastore) (key : Key) (cidStr : string)
    (v1 : bytes) (v2 : option bytes) :
  dsKeyToCidString key = Ok cidStr →
  fst (has s cidStr) = false →
  let s1 := fst (Put s key (Some v1)) in
  let s2 := fst (Put s1 key v2) in
  snd (Put s key (Some v1)) = None ∧
  snd (Put s1 key v2) = None ∧
  s2 = s1 ∧
  Get s2 key = (s2, Ok (Some v1)).
Proof.
  intros Hk Hh. unfold Put, Get.
  repeat (rewrite ?Hk, ?Hh; simpl).
  unfold has.
  by repeat (rewrite ?Hk, ?go_index_insert_eq; simpl).
Qed.

End StoreProperties.

(** ** The index *)

Section IndexProperties.

Context `{codec : CidCodec}.

Lemma Put_index s key value : index (fst (Put s key value)) = index s.
Proof.
  unfold Put. destruct (dsKeyToCidString key); [|done].
  by destruct (fst (has s a)).
Qed.

Lemma Get_index s key : index (fst (Get s key)) = index s.
Proof. Get_cases s key. Qed.

Lemma Delete_index_Some s key n f :
  index (fst (Delete s key)) !! n = Some (Some f) →
  index s !! n = Some (Some f).
Proof.
  unfold Delete. destruct (dsKeyToCidString key) as [cidStr|]; [|done].
  simpl. destruct (decide (cidStr = n)) as [->|Hne].
  - by rewrite lookup_insert_eq.
  - by rewrite lookup_insert_ne.
Qed.

Lemma run_op_index_Some s op n f :
  index (run_op s op) !! n = Some (Some f) → index s !! n = Some (Some f).
Proof.
  destruct op; simpl; try done.
  - by rewrite Put_index.
  - by rewrite Get_index.
  - apply Delete_index_Some.
Qed.

Lemma run_ops_index_Some s ops n f :
  index (run_ops s ops) !! n = Some (Some f) → index s !! n = Some (Some f).
Proof.
  revert s. induction ops as [|op ops IH]; intros s H; [done|].
  simpl in H. by apply (run_op_index_Some s op), IH.
Qed.

Lemma read_keys_index_Some files s n f :
  index (read_keys files s) !! n = Some (Some f) →
  (f ∈ files ∧ Name f = n) ∨ index s !! n = Some (Some f).
Proof.
  revert s. induction files as [|g files IH]; intros s H; [by right|].
  unfold read_keys in H. simpl in H. apply IH in H as [[Hin Hn]|H].
  - left. split; [by right|done].
  - simpl in H. destruct (decide (Name g = n)) as [Hgn|Hgn].
    + rewrite Hgn, lookup_insert_eq in H. left. simplify_eq. split; [by left|done].
    + rewrite lookup_insert_ne in H by done. by right.
Qed.

Lemma read_keys_index_other files s n :
  n ∉ map Name files → index (read_keys files s) !! n = index s !! n.
Proof.
  revert s. induction files as [|g files IH]; intros s Hn; [done|].
  unfold read_keys in *. simpl in *.
  apply not_elem_of_cons in Hn as [Hg Hn].
  rewrite IH by done. simpl. by rewrite lookup_insert_ne.
Qed.

Lemma read_keys_index_lookup files s f :
  NoDup (map Name files) → f ∈ files →
  index (read_keys files s) !! Name f = Some (Some f).
Proof.
  revert s. induction files as [|g files IH]; intros s Hnd Hin.
  - by apply elem_of_nil in Hin.
  - simpl in Hnd. apply NoDup_cons in Hnd as [Hg Hnd].
    apply elem_of_cons in Hin as [->|Hin].
    + change (read_keys (g :: files) s)
        with (read_keys files (set_index s (Name g) (Some g))).
      rewrite read_keys_index_other by done. simpl. by rewrite lookup_insert_eq.
    + by apply IH.
Qed.

Lemma NewDatastore_inv env disk s disk' :
  NewDatastore env disk = (Ok s, disk') →
  s = read_keys (map (zip_File env) (disk_entries disk))
        {| index := ∅; cache := ∅; modified := false |} ∧
  disk' = Some (default NotZip disk).
Proof.
  unfold NewDatastore, os_Stat. intros H.
  destruct (stat_err env); [done|].
  destruct (open_file_err env); destruct disk as [[entries|]|];
    simpl in *; simplify_eq; try done.
  destruct (new_reader_err env); by simplify_eq.
Qed.


End IndexProperties.

(** ** Close and reopen *)

Section CloseProperties.

Context `{codec : CidCodec} `{rt : GoRuntime}.

(** A store that was not modified is closed without touching the file:
    the result is that of closing the handle. *)
Lemma Close_unmodified env s disk :
  modified s = false → Close env s disk = (file_close_err env, disk).
Proof.
  intros Hm. unfold Close. rewrite Hm. simpl.
  by rewrite orb_true_r.
Qed.

(** C8. A store opened on an existing file and only read from ([Get],
    [Has], [GetSize], in any number and order) is closed without a
    rewrite: [Close] only closes the handle, and the file holds what it
    held before the open. *)
Theorem Close_after_reads_keeps_file (env : Env) (c : FileContent)
    (s : ZipDatastore) (disk' : Disk) (ops : list Op) :
  NewDatastore env (Some c) = (Ok s, disk') →
  forallb is_read ops = true →
  disk' = Some c ∧
  modified (run_ops s ops) = false ∧
  Close env (run_ops s ops) disk' = (file_close_err env, Some c).
Proof.
  intros Hopen Hreads.
  pose proof (NewDatastore_fresh _ _ _ _ Hopen) as [Hm _].
  apply NewDatastore_inv in Hopen as [_ ->]. simpl.
  assert (modified (run_ops s ops) = false) as Hm'
    by (by rewrite run_reads_modified).
  split; [done|]. split; [done|]. by apply Close_unmodified.
Qed.

(** *** The two loops of the rewrite *)

Lemma load_loop_keeps l c c' n v :
  load_loop l c = Ok c' → c !! n = Some (Some v) → c' !! n = Some (Some v).
Proof.
  revert c. induction l as [|[k [f|]] l IH]; intros c Hl Hn; simpl in Hl.
  - by simplify_eq.
  - destruct (not_nil (go_index c k)) eqn:Hnil; [by eapply IH|].
    destruct (Open f) as [rc|]; [|done].
    destruct (ReadAll rc) as [data err].
    eapply IH; [done|].
    destruct (decide (k = n)) as [->|Hne].
    + apply go_index_Some in Hn. by rewrite Hn in Hnil.
    + by rewrite lookup_insert_ne.
  - by eapply IH.
Qed.

(** The first loop fails only when an entry cannot be opened; what
    [ReadAll] reports is not looked at. *)
Lemma load_loop_opens l c :
  (∀ k f, (k, Some f) ∈ l → ∃ rc, Open f = Ok rc) →
  ∃ c', load_loop l c = Ok c'.
Proof.
  revert c. induction l as [|[k [f|]] l IH]; intros c Hopen; simpl.
  - by eexists.
  - assert (∀ k f, (k, Some f) ∈ l → ∃ rc, Open f = Ok rc) as Hl
      by (intros; eapply Hopen; by right).
    destruct (not_nil (go_index c k)); [by apply IH|].
    destruct (Hopen k f) as [rc ->]; [by left|].
    destruct (ReadAll rc) as [data err]. by apply IH.
  - apply IH. intros; eapply Hopen; by right.
Qed.

Lemma write_loop_Ok env l w w' :
  write_loop env l w = Ok w' → w' = w ++ live_entries l.
Proof.
  revert w. induction l as [|[k [data|]] l IH]; intros w H; simpl in H.
  - simplify_eq. by rewrite app_nil_r.
  - destruct (create_header_err env k); [done|].
    destruct (write_err env k data); [done|].
    apply IH in H. by rewrite H, <- app_assoc.
  - by apply IH.
Qed.

Lemma live_entries_elem l k data :
  (k, Some data) ∈ l → {| entry_name := k; entry_data := data |} ∈ live_entries l.
Proof.
  intros Hin. unfold live_entries. apply list_elem_of_omap.
  by exists (k, Some data).
Qed.

Lemma live_entries_names l :
  map entry_name (live_entries l) `sublist_of` map fst l.
Proof.
  induction l as [|[k [data|]] l IH]; simpl.
  - constructor.
  - by constructor.
  - by constructor.
Qed.

Lemma map_range_elem {V : Type} (m : gmap string V) k v :
  (k, v) ∈ map_range m ↔ m !! k = Some v.
Proof. rewrite (map_range_perm V m). apply elem_of_map_to_list. Qed.

Lemma map_range_NoDup {V : Type} (m : gmap string V) :
  NoDup (map fst (map_range m)).
Proof.
  rewrite (map_range_perm V m). apply (NoDup_fst_map_to_list m).
Qed.

(** A successful close of a modified store leaves a container with
    exactly the non-nil pairs of the completed cache. *)
Lemma Close_rewrite_inv env s disk disk1 :
  modified s = true →
  Close env s disk = (None, disk1) →
  ∃ cache',
    load_loop (map_range (index s)) (cache s) = Ok cache' ∧
    disk1 = Some (ZipArchive (live_entries (map_range cache'))).
Proof.
  intros Hm. unfold Close. rewrite Hm. simpl.
  destruct (load_loop _ _) as [cache'|]; [|done].
  destruct (file_close_err env); [done|]. simpl.
  destruct (truncate_err env); [done|].
  destruct (write_loop _ _ _) as [w|] eqn:Hw; simpl.
  - apply write_loop_Ok in Hw. simpl in Hw. subst w.
    destruct (keep_first _ _); [done|].
    intros; simplify_eq. by eexists.
  - done.
Qed.

(** *** Puts *)

Lemma Put_keeps_cached s key value n v :
  cache s !! n = Some (Some v) →
  cache (fst (Put s key value)) !! n = Some (Some v).
Proof.
  intros Hn. unfold Put.
  destruct (dsKeyToCidString key) as [cidStr|]; [|done].
  destruct (fst (has s cidStr)) eqn:Hh; [done|]. simpl.
  destruct (decide (cidStr = n)) as [->|Hne].
  - unfold has in Hh. simpl in Hh.
    apply go_index_Some in Hn. by rewrite Hn in Hh.
  - by rewrite lookup_insert_ne.
Qed.

Lemma put_all_keeps_cached s recs n v :
  cache s !! n = Some (Some v) →
  cache (put_all s recs) !! n = Some (Some v).
Proof.
  revert s. induction recs as [|r recs IH]; intros s Hn; [done|].
  simpl. apply IH. by apply Put_keeps_cached.
Qed.

Lemma put_all_modified s recs :
  modified s = true → modified (put_all s recs) = true.
Proof.
  revert s. induction recs as [|r recs IH]; intros s Hm; [done|].
  simpl. apply IH. by apply Put_modified.
Qed.

Lemma put_all_app s pre post :
  put_all s (pre ++ post) = put_all (put_all s pre) post.
Proof. unfold put_all. apply fold_left_app. Qed.

(** *** Reading a record back after close and reopen *)

Lemma reopen_reads_cached env1 env2 s disk disk1 s2 disk2 key cidStr v :
  dsKeyToCidString key = Ok cidStr →
  modified s = true →
  cache s !! cidStr = Some (Some v) →
  Close env1 s disk = (None, disk1) →
  NewDatastore env2 disk1 = (Ok s2, disk2) →
  reads_back env2 {| entry_name := cidStr; entry_data := v |} →
  snd (Get s2 key) = Ok (Some v) ∧
  GetSize s2 key = Ok (Z.of_nat (length v)) ∧
  Has s2 key = (true, None).
Proof.
  intros Hk Hm Hc Hclose Hopen Hread.
  destruct (Close_rewrite_inv _ _ _ _ Hm Hclose) as (cache' & Hload & ->).
  pose proof (load_loop_keeps _ _ _ _ _ Hload Hc) as Hc'.
  pose proof (NewDatastore_fresh _ _ _ _ Hopen) as [_ Hcache2].
  apply NewDatastore_inv in Hopen as [Hs2 _]. simpl in Hs2.
  set (e := {| entry_name := cidStr; entry_data := v |}) in *.
  assert (index s2 !! cidStr = Some (Some (zip_File env2 e))) as Hidx.
  { rewrite Hs2.
    apply (read_keys_index_lookup _ _ (zip_File env2 e)).
    - rewrite map_map.
      change (NoDup (map entry_name (live_entries (map_range cache')))).
      apply (sublist_NoDup _ (map fst (map_range cache')));
        [apply map_range_NoDup|apply live_entries_names].
    - apply list_elem_of_fmap. exists e. split; [done|].
      apply live_entries_elem. by apply map_range_elem. }
  apply go_index_Some in Hidx.
  unfold Get, GetSize, Has, has. rewrite Hk, Hcache2, go_index_empty, Hidx.
  simpl. rewrite Hread. simpl. by rewrite go_index_insert_eq.
Qed.

(** A put that takes effect marks the store and its payload stays in the
    cache through the puts that follow. *)
Lemma put_all_effective s pre post key cidStr v :
  dsKeyToCidString key = Ok cidStr →
  fst (has (put_all s pre) cidStr) = false →
  modified (put_all s (pre ++ (key, Some v) :: post)) = true ∧
  cache (put_all s (pre ++ (key, Some v) :: post)) !! cidStr = Some (Some v).
Proof.
  intros Hk Hnew. rewrite put_all_app.
  change (put_all (put_all s pre) ((key, Some v) :: post))
    with (put_all (fst (Put (put_all s pre) key (Some v))) post).
  split.
  - by apply put_all_modified, (Put_new_marks_modified _ _ cidStr).
  - apply put_all_keeps_cached.
    unfold Put. rewrite Hk, Hnew. simpl. by rewrite lookup_insert_eq.
Qed.

(** X22. Take any store and any batch of puts. A record of the batch
    with a valid key and a non-nil payload whose name did not exist in
    the store when its put was called is read back unchanged after a
    close and a fresh open that succeed (the entry reading back in
    full): [Get] returns the same bytes and [GetSize] their length. *)
Theorem put_close_reopen_roundtrip (env1 env2 : Env) (s : ZipDatastore)
    (disk disk1 disk2 : Disk) (pre post : list (Key * option bytes))
    (key : Key) (cidStr : string) (v : bytes) (s2 : ZipDatastore) :
  dsKeyToCidString key = Ok cidStr →
  fst (has (put_all s pre) cidStr) = false →
  Close env1 (put_all s (pre ++ (key, Some v) :: post)) disk = (None, disk1) →
  NewDatastore env2 disk1 = (Ok s2, disk2) →
  reads_back env2 {| entry_name := cidStr; entry_data := v |} →
  snd (Get s2 key) = Ok (Some v) ∧
  GetSize s2 key = Ok (Z.of_nat (length v)).
Proof.
  intros Hk Hnew Hclose Hopen Hread.
  destruct (put_all_effective s pre post key cidStr v Hk Hnew) as [Hm Hc].
  destruct (reopen_reads_cached env1 env2
              (put_all s (pre ++ (key, Some v) :: post))
              disk disk1 s2 disk2 key cidStr v)
    as (HG & HS & _); done.
Qed.

(** *** The round trip of a batch of distinct records on a new store *)

Lemma Put_has_other s key value n :
  dsKeyToCidString key ≠ Ok n →
  fst (has (fst (Put s key value)) n) = fst (has s n).
Proof.
  intros Hne. unfold Put.
  destruct (dsKeyToCidString key) as [cidStr|]; [|done].
  destruct (fst (has s cidStr)); [done|].
  unfold has. simpl. rewrite go_index_insert_ne; [done|congruence].
Qed.

Lemma put_all_has_other s recs n :
  Forall (fun r => dsKeyToCidString (fst r) ≠ Ok n) recs →
  fst (has (put_all s recs) n) = fst (has s n).
Proof.
  revert s. induction recs as [|r recs IH]; intros s Hall; [done|].
  apply Forall_cons in Hall as [Hr Hall].
  change (put_all s (r :: recs))
    with (put_all (fst (Put s (fst r) (snd r))) recs).
  rewrite IH by done. by apply Put_has_other.
Qed.

(** On a store created on a path with no file, a batch of records with
    valid keys, pairwise distinct names and non-nil payloads is read back
    record by record after a close and a fresh open without I/O
    failure. *)
Corollary new_store_batch_roundtrip (env0 env1 env2 : Env)
    (s s2 : ZipDatastore) (disk0 disk1 disk2 : Disk)
    (recs : list (Key * bytes)) :
  NewDatastore env0 None = (Ok s, disk0) →
  Forall (fun r => ∃ n, dsKeyToCidString (fst r) = Ok n) recs →
  NoDup (map (fun r => dsKeyToCidString (fst r)) recs) →
  Close env1 (put_all s (map (fun r => (fst r, Some (snd r))) recs)) disk0
    = (None, disk1) →
  NewDatastore env2 disk1 = (Ok s2, disk2) →
  (∀ e, reads_back env2 e) →
  ∀ key v, (key, v) ∈ recs →
    snd (Get s2 key) = Ok (Some v) ∧ GetSize s2 key = Ok (Z.of_nat (length v)).
Proof.
  intros Hnew Hvalid Hnd Hclose Hopen Hread key v Hin.
  apply list_elem_of_split in Hin as (pre & post & ->).
  apply Forall_app in Hvalid as [_ Hvalid].
  apply Forall_cons in Hvalid as [[n Hk] _]. simpl in Hk.
  rewrite map_app in Hclose. simpl in Hclose.
  rewrite map_app in Hnd. simpl in Hnd.
  apply NoDup_app in Hnd as (_ & Hpre & _).
  assert (fst (has (put_all s (map (fun r => (fst r, Some (snd r))) pre)) n)
          = false) as Hfresh; last first.
  { destruct (put_all_effective s _
                (map (fun r => (fst r, Some (snd r))) post) key n v Hk Hfresh)
      as [Hm Hc].
    destruct (reopen_reads_cached env1 env2
                (put_all s (map (fun r => (fst r, Some (snd r))) pre ++
                            (key, Some v) ::
                            map (fun r => (fst r, Some (snd r))) post))
                disk0 disk1 s2 disk2 key n v)
      as (HG & HS & _); done. }
  rewrite put_all_has_other.
  - apply NewDatastore_inv in Hnew as [-> _]. simpl.
    unfold has. simpl. by rewrite !go_index_empty.
  - apply Forall_forall. intros [k' v'] Hin'. simpl.
    apply list_elem_of_fmap in Hin' as ([k'' v''] & ? & Hin''). simplify_eq.
    simpl. intros Hk'. apply (Hpre (dsKeyToCidString key)).
    + apply list_elem_of_fmap. exists (k'', v''). simpl. split; [congruence|done].
    + by left.
Qed.

End CloseProperties.

(** ** The read error that [Close] does not look at *)

Section DroppedReadError.

Context `{rt : GoRuntime}.

Lemma load_loop_reads l c c' n f rc data err :
  NoDup (map fst l) →
  (n, Some f) ∈ l →
  go_index c n = None →
  Open f = Ok rc →
  ReadAll rc = (data, err) →
  load_loop l c = Ok c' →
  c' !! n = Some (Some data).
Proof.
  revert c. induction l as [|[k o] l IH]; intros c Hnd Hin Hnil Hf Hrc Hl.
  - by apply elem_of_nil in Hin.
  - simpl in Hnd. apply NoDup_cons in Hnd as [Hk Hnd].
    apply elem_of_cons in Hin as [Heq|Hin].
    + simplify_eq. simpl in Hl. rewrite Hnil in Hl. simpl in Hl.
      rewrite Hf, Hrc in Hl.
      eapply load_loop_keeps; [done|]. by rewrite lookup_insert_eq.
    + assert (k ≠ n) as Hne.
      { intros ->. apply Hk. apply list_elem_of_fmap. by exists (n, Some f). }
      destruct o as [g|]; simpl in Hl; [|by eapply IH].
      destruct (not_nil (go_index c k)); [by eapply IH|].
      destruct (Open g) as [rc'|]; [|done].
      destruct (ReadAll rc') as [data' err'].
      apply (IH (<[k := Some data']> c)); try done.
      by rewrite go_index_insert_ne.
Qed.

Lemma write_loop_quiet env l w :
  (∀ k, create_header_err env k = None) →
  (∀ k d, write_err env k d = None) →
  write_loop env l w = Ok (w ++ live_entries l).
Proof.
  intros Hc Hw. revert w.
  induction l as [|[k [data|]] l IH]; intros w; simpl.
  - by rewrite app_nil_r.
  - rewrite Hc, Hw, IH. by rewrite <- app_assoc.
  - apply IH.
Qed.

(** Whatever the iteration order: when every entry opens and nothing
    fails but the read of one entry that is not cached yet, [Close] of a
    modified store returns no error and the new archive has that entry
    with the bytes read before the failure. *)
Lemma Close_drops_ReadAll_error env s disk n f rc data e :
  modified s = true →
  index s !! n = Some (Some f) →
  go_index (cache s) n = None →
  Open f = Ok rc →
  ReadAll rc = (data, Some e) →
  (∀ k g, index s !! k = Some (Some g) → ∃ rc', Open g = Ok rc') →
  file_close_err env = None →
  truncate_err env = None →
  (∀ k, create_header_err env k = None) →
  (∀ k d, write_err env k d = None) →
  writer_close_err env = None →
  new_file_close_err env = None →
  ∃ w, Close env s disk = (None, Some (ZipArchive w)) ∧
       {| entry_name := n; entry_data := data |} ∈ w.
Proof.
  intros Hm Hn Hnil Hf Hrc Hopens Hfc Htr Hch Hwr Hwc Hnc.
  destruct (load_loop_opens (map_range (index s)) (cache s)) as [c' Hl].
  { intros k g Hin. apply map_range_elem in Hin. by eapply Hopens. }
  assert (c' !! n = Some (Some data)) as Hc'.
  { eapply load_loop_reads; try done.
    - apply map_range_NoDup.
    - by apply map_range_elem. }
  exists (live_entries (map_range c')). split.
  - unfold Close. rewrite Hm, Hl, Hfc, Htr. simpl.
    rewrite write_loop_quiet by done. simpl. by rewrite Hwc, Hnc.
  - apply live_entries_elem. by apply map_range_elem.
Qed.

End DroppedReadError.

(** A session whose only mutation is a [Delete] leaves the file as it
    was, so the deleted record is there again at the next open. *)
Section DeleteOnly.

Context `{codec : CidCodec} `{rt : GoRuntime}.

Lemma read_keys_index_kept files s n f :
  index s !! n = Some (Some f) →
  ∃ f', index (read_keys files s) !! n = Some (Some f').
Proof.
  revert s f. induction files as [|g files IH]; intros s f H; [by exists f|].
  change (read_keys (g :: files) s)
    with (read_keys files (set_index s (Name g) (Some g))).
  destruct (decide (Name g = n)) as [Hgn|Hgn].
  - apply (IH _ g). simpl. by rewrite Hgn, lookup_insert_eq.
  - apply (IH _ f). simpl. by rewrite lookup_insert_ne.
Qed.

Lemma read_keys_index_named files s n :
  n ∈ map Name files →
  ∃ f, index (read_keys files s) !! n = Some (Some f).
Proof.
  revert s. induction files as [|g files IH]; intros s Hin.
  - by apply elem_of_nil in Hin.
  - change (read_keys (g :: files) s)
      with (read_keys files (set_index s (Name g) (Some g))).
    simpl in Hin. apply elem_of_cons in Hin as [->|Hin].
    + apply (read_keys_index_kept _ _ _ g). simpl. by rewrite lookup_insert_eq.
    + by apply IH.
Qed.

Lemma Delete_only_session_lost env env2 entries s disk' s3 disk3 key cidStr :
  NewDatastore env (Some (ZipArchive entries)) = (Ok s, disk') →
  dsKeyToCidString key = Ok cidStr →
  cidStr ∈ map entry_name entries →
  Close env (fst (Delete s key)) disk'
    = (file_close_err env, Some (ZipArchive entries)) ∧
  (NewDatastore env2 (Some (ZipArchive entries)) = (Ok s3, disk3) →
   Has s3 key = (true, None)).
Proof.
  intros Hopen Hk Hin.
  pose proof (NewDatastore_fresh _ _ _ _ Hopen) as [Hm _].
  apply NewDatastore_inv in Hopen as [_ ->]. simpl.
  split.
  - apply Close_unmodified. by rewrite Delete_modified.
  - intros Hopen3. apply NewDatastore_inv in Hopen3 as [-> _]. simpl.
    destruct (read_keys_index_named (map (zip_File env2) entries)
                {| index := ∅; cache := ∅; modified := false |} cidStr)
      as [f Hf].
    { by rewrite map_map. }
    apply go_index_Some in Hf.
    unfold Has, has. rewrite Hk, Hf. simpl. by rewrite orb_true_r.
Qed.

End DeleteOnly.

(** ** The scenarios of the test suite, evaluated *)

Section Scenarios.

Import Vectors.
#[local] Existing Instance vector_codec.
#[local] Existing Instance listing_rt.

(** C1. On a store just opened on the three-block archive, [Delete] of
    the second block's key succeeds and the store is still not marked as
    modified, although [Delete] is a mutation that is meant to trigger
    the rewrite on [Close]. *)
Theorem Delete_leaves_modified_unset :
  let s := opened (NewDatastore quiet_env (Some (ZipArchive abc_entries))) in
  fst (NewDatastore quiet_env (Some (ZipArchive abc_entries))) = Ok s ∧
  modified s = false ∧
  snd (Delete s key_b) = None ∧
  modified (fst (Delete s key_b)) = false.
Proof. vm_compute. by repeat split. Qed.

(** C2. Build the archive with the three blocks, close, reopen, delete
    the second, close, reopen: every step succeeds, the second close
    leaves the file as the first one wrote it, and the last store still
    has the deleted block with its payload. *)
Theorem deleted_record_survives_reopen :
  fst (Close quiet_env built_store (snd (NewDatastore quiet_env None))) = None ∧
  fst (NewDatastore quiet_env built_disk) = Ok reopened_store ∧
  snd (Delete reopened_store key_b) = None ∧
  Has deleted_store key_b = (false, None) ∧
  Close quiet_env deleted_store (snd (NewDatastore quiet_env built_disk))
    = (None, built_disk) ∧
  fst (NewDatastore quiet_env deleted_disk) = Ok final_store ∧
  Has final_store key_b = (true, None) ∧
  snd (Get final_store key_b) = Ok (Some (blob "bbbb")) ∧
  Has final_store key_a = (true, None) ∧
  Has final_store key_c = (true, None).
Proof. vm_compute. by repeat split. Qed.

(** C7. The archive holds the three blocks and reading the first one
    breaks off after two bytes. [Get] reports the read error, but after
    a put of a fourth block [Close] returns no error and writes the
    two bytes it got as the first block's payload. *)
Theorem Close_drops_read_error :
  let disk := Some (ZipArchive abc_entries) in
  let s := opened (NewDatastore flaky_env disk) in
  let s' := fst (Put s key_z (Some (blob "zzzz"))) in
  fst (NewDatastore flaky_env disk) = Ok s ∧
  snd (Get s key_a) = Err (ErrExternal 5) ∧
  fst (Close flaky_env s' disk) = None ∧
  snd (Close flaky_env s' disk) =
    Some (ZipArchive
      [ {| entry_name := name_b; entry_data := blob "bbbb" |};
        {| entry_name := name_c; entry_data := blob "cccc" |};
        {| entry_name := name_z; entry_data := blob "zzzz" |};
        {| entry_name := name_a; entry_data := blob "aa" |} ]).
Proof. vm_compute. by repeat split. Qed.

(** The names of the vectors: base58 for the version-0 identifier,
    base32 for the others, an error for a key that is not a CID. *)
Example canonical_names :
  dsKeyToCidString key_v0 = Ok name_v0 ∧
  dsKeyToCidString key_a = Ok name_a ∧
  dsKeyToCidString "/not-a-cid" = Err (ErrExternal 1).
Proof. by repeat split. Qed.

(** C3. On a new store, a put of the nil slice under the key of block
    aaaa succeeds and marks the store modified, and the close and the
    reopen succeed, but the rewritten archive is empty: [Get] and
    [GetSize] fail with [ErrNotFound] instead of returning the payload of
    no bytes and the length 0.  The same session with the empty slice
    that is not nil reads the empty record back. *)
Theorem nil_payload_lost_by_roundtrip :
  let s := opened (NewDatastore quiet_env None) in
  let disk := snd (NewDatastore quiet_env None) in
  (let s' := fst (Put s key_a None) in
   let s2 := opened (NewDatastore quiet_env (snd (Close quiet_env s' disk))) in
   snd (Put s key_a None) = None ∧
   modified s' = true ∧
   Close quiet_env s' disk = (None, Some (ZipArchive [])) ∧
   fst (NewDatastore quiet_env (snd (Close quiet_env s' disk))) = Ok s2 ∧
   Has s2 key_a = (false, None) ∧
   snd (Get s2 key_a) = Err ErrNotFound ∧
   GetSize s2 key_a = Err ErrNotFound) ∧
  (let s' := fst (Put s key_a (Some [])) in
   let s2 := opened (NewDatastore quiet_env (snd (Close quiet_env s' disk))) in
   snd (Put s key_a (Some [])) = None ∧
   fst (Close quiet_env s' disk) = None ∧
   fst (NewDatastore quiet_env (snd (Close quiet_env s' disk))) = Ok s2 ∧
   Has s2 key_a = (true, None) ∧
   snd (Get s2 key_a) = Ok (Some []) ∧
   GetSize s2 key_a = Ok 0).
Proof. vm_compute. by repeat split. Qed.

(** C4. On a new store, a put of the nil slice and then a put of bbbb
    under the same key both return no error, but the first write does
    not win: the second put is not a no-op and [Get] returns bbbb.  With
    the empty slice that is not nil as first payload the first write
    wins. *)
Theorem nil_first_put_does_not_win :
  let s := opened (NewDatastore quiet_env None) in
  (let s1 := fst (Put s key_a None) in
   let s2 := fst (Put s1 key_a (Some (blob "bbbb"))) in
   snd (Put s key_a None) = None ∧
   snd (Put s1 key_a (Some (blob "bbbb"))) = None ∧
   Has s1 key_a = (false, None) ∧
   s2 ≠ s1 ∧
   snd (Get s2 key_a) = Ok (Some (blob "bbbb"))) ∧
  (let s1 := fst (Put s key_a (Some [])) in
   let s2 := fst (Put s1 key_a (Some (blob "bbbb"))) in
   snd (Put s key_a (Some [])) = None ∧
   snd (Put s1 key_a (Some (blob "bbbb"))) = None ∧
   s2 = s1 ∧
   snd (Get s2 key_a) = Ok (Some [])).
Proof. vm_compute. by repeat split. Qed.

(** A put under a name the archive already has is ignored (the dupe
    guard of [Put]): it returns no error, and the archived payload is
    what [Get] returns, in the session and after a rewrite. *)
Example Put_on_archived_name_is_ignored :
  let disk := Some (ZipArchive abc_entries) in
  let s := opened (NewDatastore quiet_env disk) in
  let s1 := fst (Put s key_z (Some (blob "zzzz"))) in
  let s' := fst (Put s1 key_a (Some (blob "xy"))) in
  let s2 := opened (NewDatastore quiet_env (snd (Close quiet_env s' disk))) in
  snd (Put s1 key_a (Some (blob "xy"))) = None ∧
  s' = s1 ∧
  snd (Get s' key_a) = Ok (Some (blob "aaaa")) ∧
  fst (Close quiet_env s' disk) = None ∧
  fst (NewDatastore quiet_env (snd (Close quiet_env s' disk))) = Ok s2 ∧
  snd (Get s2 key_a) = Ok (Some (blob "aaaa")) ∧
  GetSize s2 key_a = Ok 4.
Proof. vm_compute. by repeat split. Qed.


(** The two general lemmas on the defects, at the test vectors. *)
Example Delete_only_session_lost_vectors :
  let s := opened (NewDatastore quiet_env (Some (ZipArchive abc_entries))) in
  Close quiet_env (fst (Delete s key_b)) (Some (ZipArchive abc_entries))
    = (None, Some (ZipArchive abc_entries)) ∧
  Has (opened (NewDatastore quiet_env (Some (ZipArchive abc_entries)))) key_b
    = (true, None).
Proof.
  intros s.
  destruct (Delete_only_session_lost quiet_env quiet_env abc_entries s
              (Some (ZipArchive abc_entries)) s (Some (ZipArchive abc_entries))
              key_b name_b) as [Hclose Hhas].
  - vm_compute; reflexivity.
  - reflexivity.
  - right; left.
  - split; [exact Hclose|]. apply Hhas. vm_compute; reflexivity.
Qed.

Example Close_drops_ReadAll_error_vectors :
  let disk := Some (ZipArchive abc_entries) in
  let s := fst (Put (opened (NewDatastore flaky_env disk)) key_z (Some (blob "zzzz"))) in
  ∃ w, Close flaky_env s disk = (None, Some (ZipArchive w)) ∧
       {| entry_name := name_a; entry_data := blob "aa" |} ∈ w.
Proof.
  intros disk s.
  apply (Close_drops_ReadAll_error flaky_env s disk name_a
           (zip_File flaky_env {| entry_name := name_a; entry_data := blob "aaaa" |})
           {| ReadAll := (blob "aa", Some (ErrExternal 5)) |}
           (blob "aa") (ErrExternal 5)); try (vm_compute; reflexivity); try done.
  intros k g Hg.
  assert (index s = index (opened (NewDatastore flaky_env disk))) as Hidx
    by apply Put_index.
  rewrite Hidx in Hg.
  assert (NewDatastore flaky_env disk
          = (Ok (opened (NewDatastore flaky_env disk)), disk)) as Hopen
    by (vm_compute; reflexivity).
  apply NewDatastore_inv in Hopen as [Hs _]. rewrite Hs in Hg.
  apply read_keys_index_Some in Hg as [[Hin _]|Hg].
  - apply list_elem_of_fmap in Hin as (e & -> & _). simpl.
    destruct (String.eqb (entry_name e) name_a); by eexists.
  - simpl in Hg. by rewrite lookup_empty in Hg.
Qed.

(** Witnesses: the theorems above at the test vectors. *)

Lemma Delete_then_miss_witness :
  let s := opened (NewDatastore quiet_env (Some (ZipArchive abc_entries))) in
  dsKeyToCidString key_b = Ok name_b ∧
  (snd (Delete s key_b) = None ∧
   Has (fst (Delete s key_b)) key_b = (false, None) ∧
   snd (Get (fst (Delete s key_b)) key_b) = Err ErrNotFound).
Proof.
  intros s. split; [reflexivity|].
  apply (Delete_then_miss s key_b name_b). reflexivity.
Defined.

Lemma Put_after_Delete_witness :
  let s := opened (NewDatastore quiet_env (Some (ZipArchive abc_entries))) in
  let s1 := fst (Delete s key_b) in
  let s2 := fst (Put s1 key_b (Some (blob "bbbb"))) in
  dsKeyToCidString key_b = Ok name_b ∧
  blob "bbbb" ≠ [] ∧
  (snd (Delete s key_b) = None ∧
   snd (Put s1 key_b (Some (blob "bbbb"))) = None ∧
   Get s2 key_b = (s2, Ok (Some (blob "bbbb"))) ∧
   Has s2 key_b = (true, None)).
Proof.
  intros s s1 s2. split; [reflexivity|]. split; [discriminate|].
  apply (Put_after_Delete s key_b name_b (blob "bbbb")).
  - reflexivity.
  - discriminate.
Defined.

Lemma Put_twice_first_wins_witness :
  let s := opened (NewDatastore quiet_env None) in
  let s1 := fst (Put s key_a (Some (blob "aaaa"))) in
  let s2 := fst (Put s1 key_a (Some (blob "bbbb"))) in
  dsKeyToCidString key_a = Ok name_a ∧
  fst (has s name_a) = false ∧
  (snd (Put s key_a (Some (blob "aaaa"))) = None ∧
   snd (Put s1 key_a (Some (blob "bbbb"))) = None ∧
   s2 = s1 ∧
   Get s2 key_a = (s2, Ok (Some (blob "aaaa")))).
Proof.
  intros s s1 s2. split; [reflexivity|]. split; [reflexivity|].
  apply (Put_twice_first_wins s key_a name_a (blob "aaaa") (Some (blob "bbbb")));
    reflexivity.
Defined.


Lemma Close_after_reads_keeps_file_witness :
  let c := ZipArchive abc_entries in
  let s := opened (NewDatastore quiet_env (Some c)) in
  let ops := [OpGet key_a; OpHas key_b; OpGetSize key_c; OpGet key_z] in
  NewDatastore quiet_env (Some c) = (Ok s, Some c) ∧
  forallb is_read ops = true ∧
  (Some c = Some c ∧
   modified (run_ops s ops) = false ∧
   Close quiet_env (run_ops s ops) (Some c) = (file_close_err quiet_env, Some c)).
Proof.
  intros c s ops.
  split; [vm_compute; reflexivity|]. split; [reflexivity|].
  apply (Close_after_reads_keeps_file quiet_env c s (Some c) ops).
  - vm_compute; reflexivity.
  - reflexivity.
Defined.

Lemma put_close_reopen_roundtrip_witness :
  let s := opened (NewDatastore quiet_env None) in
  let disk := snd (NewDatastore quiet_env None) in
  let pre := [(key_a, Some (blob "aaaa"))] in
  let post := [(key_c, Some (blob "cccc")); (key_b, Some (blob "xy"))] in
  let recs := pre ++ (key_b, Some (blob "bbbb")) :: post in
  let disk1 := snd (Close quiet_env (put_all s recs) disk) in
  let s2 := opened (NewDatastore quiet_env disk1) in
  dsKeyToCidString key_b = Ok name_b ∧
  fst (has (put_all s pre) name_b) = false ∧
  Close quiet_env (put_all s recs) disk = (None, disk1) ∧
  NewDatastore quiet_env disk1 = (Ok s2, disk1) ∧
  reads_back quiet_env {| entry_name := name_b; entry_data := blob "bbbb" |} ∧
  (snd (Get s2 key_b) = Ok (Some (blob "bbbb")) ∧
   GetSize s2 key_b = Ok (Z.of_nat (length (blob "bbbb")))).
Proof.
  intros s disk pre post recs disk1 s2.
  split; [reflexivity|]. split; [reflexivity|].
  split; [vm_compute; reflexivity|]. split; [vm_compute; reflexivity|].
  split; [reflexivity|].
  apply (put_close_reopen_roundtrip quiet_env quiet_env s disk disk1 disk1
           pre post key_b name_b (blob "bbbb") s2).
  - reflexivity.
  - reflexivity.
  - vm_compute; reflexivity.
  - vm_compute; reflexivity.
  - reflexivity.
Defined.

End Scenarios.

(** ** What one call changes and what it leaves alone *)

Section CallProperties.

Context `{codec : CidCodec}.

(** What a key's calls answer depends on the two maps at its name only. *)
Lemma observe_by_name s1 s2 key n :
  dsKeyToCidString key = Ok n →
  go_index (cache s1) n = go_index (cache s2) n →
  go_index (index s1) n = go_index (index s2) n →
  Has s1 key = Has s2 key ∧
  snd (Get s1 key) = snd (Get s2 key) ∧
  GetSize s1 key = GetSize s2 key.
Proof.
  intros Hk Hc Hi. unfold Has, has, Get, GetSize. rewrite Hk, Hc, Hi.
  split; [done|]. split; [|done].
  destruct (go_index (cache s2) n); [done|].
  destruct (go_index (index s2) n) as [f|]; [|done].
  destruct (Open f) as [rc|]; [|done].
  destruct (ReadAll rc) as [data [e|]]; [done|].
  simpl. by rewrite !go_index_insert_eq.
Qed.

Lemma Put_lookup_other s key value n n' :
  dsKeyToCidString key = Ok n → n ≠ n' →
  go_index (cache (fst (Put s key value))) n' = go_index (cache s) n' ∧
  go_index (index (fst (Put s key value))) n' = go_index (index s) n'.
Proof.
  intros Hk Hne. unfold Put. rewrite Hk.
  destruct (fst (has s n)); [done|]. simpl.
  by rewrite go_index_insert_ne.
Qed.

Lemma Delete_lookup_other s key n n' :
  dsKeyToCidString key = Ok n → n ≠ n' →
  go_index (cache (fst (Delete s key))) n' = go_index (cache s) n' ∧
  go_index (index (fst (Delete s key))) n' = go_index (index s) n'.
Proof.
  intros Hk Hne. unfold Delete. rewrite Hk. simpl.
  by rewrite !go_index_insert_ne.
Qed.

Lemma Get_lookup_other s key n n' :
  dsKeyToCidString key = Ok n → n ≠ n' →
  go_index (cache (fst (Get s key))) n' = go_index (cache s) n' ∧
  go_index (index (fst (Get s key))) n' = go_index (index s) n'.
Proof.
  intros Hk Hne. unfold Get. rewrite Hk.
  destruct (go_index (cache s) n); [done|].
  destruct (go_index (index s) n) as [f|]; [|done].
  destruct (Open f) as [rc|]; [|done].
  destruct (ReadAll rc) as [data [e|]]; simpl; by rewrite go_index_insert_ne.
Qed.

(** X1. A key that has no canonical name is rejected by every operation
    with the canonicalization error, and the store is left as it was. *)
Theorem invalid_key_rejected (s : ZipDatastore) (key : Key) (e : error)
    (value : option bytes) :
  dsKeyToCidString key = Err e →
  Put s key value = (s, Some e) ∧
  Get s key = (s, Err e) ∧
  Has s key = (false, Some e) ∧
  Delete s key = (s, Some e) ∧
  GetSize s key = Err e.
Proof.
  intros Hk. unfold Put, Get, Has, Delete, GetSize. by rewrite Hk.
Qed.

(** X2. For a valid key, [GetSize] fails with [ErrNotFound] exactly when
    [Has] answers false, and then [Get] fails with [ErrNotFound] too and
    leaves the store as it was. *)
Theorem missing_key_not_found (s : ZipDatastore) (key : Key) (cidStr : string) :
  dsKeyToCidString key = Ok cidStr →
  (fst (Has s key) = false ↔ GetSize s key = Err ErrNotFound) ∧
  (fst (Has s key) = false → Get s key = (s, Err ErrNotFound)).
Proof.
  intros Hk. unfold Has, has, GetSize, Get. rewrite Hk. simpl.
  destruct (go_index (cache s) cidStr) as [v|]; simpl.
  - split; [split; intros; discriminate|intros; discriminate].
  - destruct (go_index (index s) cidStr) as [f|]; simpl.
    + split; [split; intros; discriminate|intros; discriminate].
    + done.
Qed.

(** X3. [Get] never changes what [Has] answers, for any key, whether it
    succeeds or fails. *)
Theorem Get_keeps_Has (s : ZipDatastore) (key key' : Key) :
  Has (fst (Get s key)) key' = Has s key'.
Proof.
  unfold Has. destruct (dsKeyToCidString key') as [n'|]; [|done].
  unfold Get. destruct (dsKeyToCidString key) as [n|]; [|done].
  destruct (go_index (cache s) n) eqn:Hc; [done|].
  destruct (go_index (index s) n) as [f|] eqn:Hi; [|done].
  destruct (Open f) as [rc|]; [|done].
  assert (has (set_cache s n (Some (fst (ReadAll rc)))) n' = has s n') as Hhas.
  { unfold has. simpl. destruct (decide (n = n')) as [<-|Hne].
    - by rewrite go_index_insert_eq, Hc, Hi.
    - by rewrite go_index_insert_ne. }
  destruct (ReadAll rc) as [data [e|]]; exact Hhas.
Qed.


(** X5. When the read of an entry breaks off, [Get] returns the error but
    has already stored the bytes read so far: the next [Get] of the key
    returns them without error, and [GetSize] their length. *)
Theorem Get_caches_partial_read (s : ZipDatastore) (key : Key) (cidStr : string)
    (f : ZipFile) (rc : ReadCloser) (data : bytes) (e : error) :
  dsKeyToCidString key = Ok cidStr →
  go_index (cache s) cidStr = None →
  go_index (index s) cidStr = Some f →
  Open f = Ok rc →
  ReadAll rc = (data, Some e) →
  snd (Get s key) = Err e ∧
  snd (Get (fst (Get s key)) key) = Ok (Some data) ∧
  GetSize (fst (Get s key)) key = Ok (Z.of_nat (length data)).
Proof.
  intros Hk Hc Hi Hf Hrc. unfold Get, GetSize.
  by repeat (rewrite ?Hk, ?Hc, ?Hi, ?Hf, ?Hrc, ?go_index_insert_eq; simpl).
Qed.

(** X6. A [Put], [Delete] or [Get] under one name leaves what [Has],
    [Get] and [GetSize] answer for every key of another name as it
    was. *)
Theorem other_names_untouched (s : ZipDatastore) (key key' : Key)
    (n n' : string) (value : option bytes) :
  dsKeyToCidString key = Ok n →
  dsKeyToCidString key' = Ok n' →
  n ≠ n' →
  ∀ s', s' = fst (Put s key value) ∨ s' = fst (Delete s key)
        ∨ s' = fst (Get s key) →
    Has s' key' = Has s key' ∧
    snd (Get s' key') = snd (Get s key') ∧
    GetSize s' key' = GetSize s key'.
Proof.
  intros Hk Hk' Hne s' [-> | [-> | ->]]; apply (observe_by_name _ _ _ n' Hk').
  - by apply (Put_lookup_other _ _ _ n).
  - by apply (Put_lookup_other _ _ _ n).
  - by apply (Delete_lookup_other _ _ n).
  - by apply (Delete_lookup_other _ _ n).
  - by apply (Get_lookup_other _ _ n).
  - by apply (Get_lookup_other _ _ n).
Qed.

(** X7. [Delete] is idempotent: a second [Delete] of the same key
    returns what the first returned and leaves the store the first one
    left. *)
Theorem Delete_idempotent (s : ZipDatastore) (key : Key) :
  Delete (fst (Delete s key)) key = Delete s key.
Proof.
  unfold Delete. destruct (dsKeyToCidString key) as [n|] eqn:Hk; simpl.
  - unfold set_index, set_cache. simpl. by rewrite !insert_insert_eq.
  - done.
Qed.

(** X8. No operation removes a key from the cache or from the index:
    both maps only gain keys during a session. *)
Theorem keys_never_removed (s : ZipDatastore) (ops : list Op) :
  dom (cache s) ⊆ dom (cache (run_ops s ops)) ∧
  dom (index s) ⊆ dom (index (run_ops s ops)).
Proof.
  revert s. induction ops as [|op ops Hind]; intros s; [done|].
  simpl. destruct (Hind (run_op s op)) as [Hcs His]. clear Hind.
  assert (dom (cache s) ⊆ dom (cache (run_op s op)) ∧
          dom (index s) ⊆ dom (index (run_op s op))) as [Hc Hi].
  { destruct op as [key value|key|key|key|key]; simpl; try done.
    - unfold Put. destruct (dsKeyToCidString key) as [n|]; [|done].
      destruct (fst (has s n)); [done|]. simpl.
      split; [|done]. rewrite dom_insert_L. set_solver.
    - unfold Get. destruct (dsKeyToCidString key) as [n|]; [|done].
      destruct (go_index (cache s) n); [done|].
      destruct (go_index (index s) n) as [f|]; [|done].
      destruct (Open f) as [rc|]; [|done].
      destruct (ReadAll rc) as [data [e|]]; simpl;
        (split; [|done]); rewrite dom_insert_L; set_solver.
    - unfold Delete. destruct (dsKeyToCidString key) as [n|]; [|done].
      simpl. rewrite !dom_insert_L. set_solver. }
  split; set_solver.
Qed.

(** X21. A put of the nil slice under a new name returns no error and
    marks the store modified, but no record exists afterwards; a put of
    an empty slice that is not nil stores an empty record. *)
Theorem Put_nil_stores_nothing (s : ZipDatastore) (key : Key) (cidStr : string) :
  dsKeyToCidString key = Ok cidStr →
  fst (has s cidStr) = false →
  let s1 := fst (Put s key None) in
  let s2 := fst (Put s key (Some [])) in
  (snd (Put s key None) = None ∧
   modified s1 = true ∧
   Has s1 key = (false, None) ∧
   Get s1 key = (s1, Err ErrNotFound) ∧
   GetSize s1 key = Err ErrNotFound) ∧
  (snd (Put s key (Some [])) = None ∧
   Has s2 key = (true, None) ∧
   Get s2 key = (s2, Ok (Some [])) ∧
   GetSize s2 key = Ok 0).
Proof.
  intros Hk Hnew.
  unfold has in Hnew. simpl in Hnew.
  apply orb_false_elim in Hnew as [Hc Hi].
  destruct (go_index (cache s) cidStr) eqn:Hcache; [done|].
  destruct (go_index (index s) cidStr) eqn:Hidx; [done|].
  unfold Put, Has, Get, GetSize, has.
  by repeat (rewrite ?Hk, ?Hcache, ?Hidx, ?go_index_insert_eq; simpl).
Qed.

End CallProperties.

(** ** Stores opened on an archive *)

Section OpenProperties.

Context `{codec : CidCodec} `{rt : GoRuntime}.

Lemma read_keys_app l1 l2 s :
  read_keys (l1 ++ l2) s = read_keys l2 (read_keys l1 s).
Proof. unfold read_keys. apply fold_left_app. Qed.

(** X9. A store that has just been opened has exactly the names of the
    archive's entries: for a valid key, [Has] answers true if and only if
    the key's name is the name of an entry of the file (of none when the
    file is new). *)
Theorem opened_store_has_archive_names (env : Env) (disk disk' : Disk)
    (s : ZipDatastore) (key : Key) (n : string) :
  NewDatastore env disk = (Ok s, disk') →
  dsKeyToCidString key = Ok n →
  fst (Has s key) = true ↔ n ∈ map entry_name (disk_entries disk).
Proof.
  intros Hopen Hk.
  pose proof (NewDatastore_fresh _ _ _ _ Hopen) as [_ Hc].
  apply NewDatastore_inv in Hopen as [Hs _].
  unfold Has, has. rewrite Hk, Hc, go_index_empty. simpl. split.
  - destruct (go_index (index s) n) as [f|] eqn:Hi; [|done]. intros _.
    apply go_index_Some in Hi. rewrite Hs in Hi.
    apply read_keys_index_Some in Hi as [[Hin Hn]|Hi].
    + apply list_elem_of_fmap in Hin as (e & -> & He).
      apply list_elem_of_fmap. by exists e.
    + simpl in Hi. by rewrite lookup_empty in Hi.
  - intros Hin.
    destruct (read_keys_index_named (map (zip_File env) (disk_entries disk))
                {| index := ∅; cache := ∅; modified := false |} n) as [f Hf].
    { by rewrite map_map. }
    rewrite <- Hs in Hf. apply go_index_Some in Hf. by rewrite Hf.
Qed.

(** X10. When the archive holds several entries of one name, the store
    serves the last one: [Get] returns its payload and [GetSize] its
    length. *)
Theorem last_entry_of_a_name_wins (env : Env) (l1 l2 : list Entry) (e : Entry)
    (s : ZipDatastore) (disk' : Disk) (key : Key) :
  NewDatastore env (Some (ZipArchive (l1 ++ e :: l2))) = (Ok s, disk') →
  dsKeyToCidString key = Ok (entry_name e) →
  entry_name e ∉ map entry_name l2 →
  reads_back env e →
  snd (Get s key) = Ok (Some (entry_data e)) ∧
  GetSize s key = Ok (Z.of_nat (length (entry_data e))).
Proof.
  intros Hopen Hk Hlast Hread.
  pose proof (NewDatastore_fresh _ _ _ _ Hopen) as [_ Hc].
  apply NewDatastore_inv in Hopen as [Hs _]. simpl in Hs.
  assert (index s !! entry_name e = Some (Some (zip_File env e))) as Hi.
  { rewrite Hs, map_app, read_keys_app. simpl.
    change (read_keys (zip_File env e :: map (zip_File env) l2) ?z)
      with (read_keys (map (zip_File env) l2)
              (set_index z (Name (zip_File env e)) (Some (zip_File env e)))).
    rewrite read_keys_index_other.
    - simpl. by rewrite lookup_insert_eq.
    - by rewrite map_map. }
  apply go_index_Some in Hi.
  unfold Get, GetSize. rewrite Hk, Hc, go_index_empty, Hi. simpl.
  rewrite Hread. simpl. by rewrite go_index_insert_eq.
Qed.

(** *** The cache never disagrees with the archive *)

Lemma index_coherent_open env disk s disk' :
  NewDatastore env disk = (Ok s, disk') →
  (∀ e, e ∈ disk_entries disk → reads_back env e) →
  index_coherent s.
Proof.
  intros Hopen Hread n f Hi.
  pose proof (NewDatastore_fresh _ _ _ _ Hopen) as [_ Hc].
  apply NewDatastore_inv in Hopen as [Hs _]. rewrite Hs in Hi.
  apply read_keys_index_Some in Hi as [[Hin Hn]|Hi].
  - apply list_elem_of_fmap in Hin as (e & -> & He).
    exists (entry_data e). simpl. split; [by apply Hread|]. split; [done|].
    intros v Hv. by rewrite Hc, lookup_empty in Hv.
  - simpl in Hi. by rewrite lookup_empty in Hi.
Qed.

Lemma index_coherent_run_op s op :
  index_coherent s → index_coherent (run_op s op).
Proof.
  intros Hs. destruct op as [key value|key|key|key|key]; simpl; try done.
  - unfold Put. destruct (dsKeyToCidString key) as [k|]; [|done].
    destruct (fst (has s k)) eqn:Hh; [done|]. simpl.
    intros n f Hi. simpl in Hi.
    destruct (Hs n f Hi) as (data & Hf & Hsz & Hv).
    exists data. split; [done|]. split; [done|]. simpl.
    destruct (decide (k = n)) as [->|Hne].
    + unfold has in Hh. simpl in Hh. apply go_index_Some in Hi.
      rewrite Hi in Hh. simpl in Hh. by rewrite orb_true_r in Hh.
    + by rewrite lookup_insert_ne.
  - unfold Get. destruct (dsKeyToCidString key) as [k|]; [|done].
    destruct (go_index (cache s) k); [done|].
    destruct (go_index (index s) k) as [g|] eqn:Hg; [|done].
    apply go_index_Some in Hg.
    destruct (Hs k g Hg) as (dk & Hopen & _ & _). rewrite Hopen. simpl.
    intros n f Hi. simpl in Hi.
    destruct (Hs n f Hi) as (data & Hf & Hsz & Hv).
    exists data. split; [done|]. split; [done|]. simpl.
    destruct (decide (k = n)) as [->|Hne].
    + rewrite lookup_insert_eq. intros v ?; simplify_eq. congruence.
    + by rewrite lookup_insert_ne.
  - unfold Delete. destruct (dsKeyToCidString key) as [k|]; [|done]. simpl.
    intros n f Hi. simpl in Hi.
    destruct (decide (k = n)) as [->|Hne].
    + by rewrite lookup_insert_eq in Hi.
    + rewrite lookup_insert_ne in Hi by done.
      destruct (Hs n f Hi) as (data & Hf & Hsz & Hv).
      exists data. split; [done|]. split; [done|]. simpl.
      by rewrite lookup_insert_ne.
Qed.

Lemma index_coherent_run_ops s ops :
  index_coherent s → index_coherent (run_ops s ops).
Proof.
  revert s. induction ops as [|op ops IH]; intros s Hs; [done|].
  simpl. by apply IH, index_coherent_run_op.
Qed.

(** X11. Whatever is put, read or deleted during a session on an archive
    whose entries read back in full: as long as the index still refers
    to an entry of a name, [Get] of that name returns the payload of an
    entry of the archive and [GetSize] its length; no put replaces the
    payload of an archived record. *)
Theorem archived_payload_served (env : Env) (disk disk' : Disk)
    (s0 : ZipDatastore) (ops : list Op) (key : Key) (n : string) (f : ZipFile) :
  NewDatastore env disk = (Ok s0, disk') →
  (∀ e, e ∈ disk_entries disk → reads_back env e) →
  dsKeyToCidString key = Ok n →
  index (run_ops s0 ops) !! n = Some (Some f) →
  ∃ e, e ∈ disk_entries disk ∧ entry_name e = n ∧
       snd (Get (run_ops s0 ops) key) = Ok (Some (entry_data e)) ∧
       GetSize (run_ops s0 ops) key = Ok (Z.of_nat (length (entry_data e))).
Proof.
  intros Hopen Hread Hk Hi.
  pose proof (index_coherent_run_ops s0 ops
                (index_coherent_open _ _ _ _ Hopen Hread) n f Hi)
    as (data & Hf & Hsz & Hv).
  pose proof Hi as Hi0. apply run_ops_index_Some in Hi0.
  apply NewDatastore_inv in Hopen as [Hs _]. rewrite Hs in Hi0.
  apply read_keys_index_Some in Hi0 as [[Hin Hn]|Hi0];
    [|simpl in Hi0; by rewrite lookup_empty in Hi0].
  apply list_elem_of_fmap in Hin as (e & -> & He).
  simpl in Hn. subst n.
  exists e. split; [done|]. split; [done|].
  simpl in Hf, Hsz. rewrite (Hread e He) in Hf. injection Hf as <-.
  apply go_index_Some in Hi.
  unfold Get, GetSize. rewrite Hk, Hi.
  destruct (go_index (cache (run_ops s0 ops)) (entry_name e)) as [v|] eqn:Hc.
  - apply go_index_Some in Hc. by rewrite (Hv v Hc).
  - simpl. rewrite (Hread e He). simpl. by rewrite go_index_insert_eq.
Qed.

(** X12. During a session on an archive whose entries read back in full,
    the size agrees with the payload: when [Get] returns a payload,
    [GetSize] returns its length, before and after that [Get]. *)
Theorem GetSize_matches_Get (env : Env) (disk disk' : Disk)
    (s0 : ZipDatastore) (ops : list Op) (key : Key) (s' : ZipDatastore)
    (v : bytes) :
  NewDatastore env disk = (Ok s0, disk') →
  (∀ e, e ∈ disk_entries disk → reads_back env e) →
  Get (run_ops s0 ops) key = (s', Ok (Some v)) →
  GetSize (run_ops s0 ops) key = Ok (Z.of_nat (length v)) ∧
  GetSize s' key = Ok (Z.of_nat (length v)).
Proof.
  intros Hopen Hread.
  pose proof (index_coherent_run_ops s0 ops
                (index_coherent_open _ _ _ _ Hopen Hread)) as Hcoh.
  set (s := run_ops s0 ops) in *.
  unfold Get, GetSize. destruct (dsKeyToCidString key) as [n|]; [|done].
  destruct (go_index (cache s) n) as [c|] eqn:Hc.
  - intros; simplify_eq. by rewrite Hc.
  - destruct (go_index (index s) n) as [f|] eqn:Hi; [|done].
    apply go_index_Some in Hi.
    destruct (Hcoh n f Hi) as (data & Hf & Hsz & _). rewrite Hf. simpl.
    rewrite go_index_insert_eq. intros; simplify_eq. simpl.
    by rewrite go_index_insert_eq, Hsz.
Qed.

(** *** Sessions without a put *)

Lemma run_no_put_modified s ops :
  forallb (fun op => negb (is_put op)) ops = true →
  modified (run_ops s ops) = modified s.
Proof.
  revert s. induction ops as [|op ops IH]; intros s H; [done|].
  simpl in H. apply andb_prop in H as [Hop Hops].
  simpl. rewrite IH by done.
  destruct op; simpl in *; try done.
  - apply Get_modified.
  - apply Delete_modified.
Qed.

(** X13. A session in which [Put] is never called, whatever it reads and
    deletes, is closed without a rewrite: [Close] only closes the handle
    and the file is left as the open left it. *)
Theorem session_without_put_keeps_file (env : Env) (disk disk1 : Disk)
    (s : ZipDatastore) (ops : list Op) :
  NewDatastore env disk = (Ok s, disk1) →
  forallb (fun op => negb (is_put op)) ops = true →
  modified (run_ops s ops) = false ∧
  Close env (run_ops s ops) disk1 = (file_close_err env, disk1).
Proof.
  intros Hopen Hops.
  pose proof (NewDatastore_fresh _ _ _ _ Hopen) as [Hm _].
  assert (modified (run_ops s ops) = false) as Hm'
    by (by rewrite run_no_put_modified).
  split; [done|]. by apply Close_unmodified.
Qed.

(** X14. A store created on a path with no file and closed without a put
    leaves an empty file behind, which is not an archive: every later
    open of the path fails. *)
Theorem new_store_without_put_not_reopenable (env env2 : Env) (disk1 : Disk)
    (s : ZipDatastore) (ops : list Op) :
  NewDatastore env None = (Ok s, disk1) →
  forallb (fun op => negb (is_put op)) ops = true →
  snd (Close env (run_ops s ops) disk1) = Some NotZip ∧
  ∃ e, fst (NewDatastore env2 (snd (Close env (run_ops s ops) disk1))) = Err e ∧
       (stat_err env2 = None → open_file_err env2 = None → e = ErrFormat).
Proof.
  intros Hopen Hops.
  pose proof (NewDatastore_fresh _ _ _ _ Hopen) as [Hm _].
  apply NewDatastore_inv in Hopen as [_ ->]. simpl.
  rewrite Close_unmodified by (by rewrite run_no_put_modified).
  simpl. split; [done|].
  unfold NewDatastore, os_Stat.
  destruct (stat_err env2) as [e1|]; [by exists e1|].
  destruct (open_file_err env2) as [e2|]; [by exists e2|].
  by exists ErrFormat.
Qed.

End OpenProperties.

(** ** What a rewrite writes *)

Section RewriteProperties.

Context `{codec : CidCodec} `{rt : GoRuntime}.

(** After the first loop a name has a payload in the cache exactly when
    it had one before or the index refers to an entry of that name. *)
Lemma load_loop_is_Some l c c' n :
  load_loop l c = Ok c' →
  is_Some (go_index c' n) ↔
  is_Some (go_index c n) ∨ ∃ f, (n, Some f) ∈ l.
Proof.
  revert c. induction l as [|[k [f|]] l IH]; intros c Hl; simpl in Hl.
  - simplify_eq. split; [by left|]. intros [H|[f Hf]]; [done|].
    by apply elem_of_nil in Hf.
  - destruct (not_nil (go_index c k)) eqn:Hnil.
    + rewrite (IH c Hl). split.
      * intros [H|[g Hg]]; [by left|]. right. exists g. by right.
      * intros [H|[g Hg]]; [by left|].
        apply elem_of_cons in Hg as [Hg|Hg]; [|right; by exists g].
        simplify_eq. left. by destruct (go_index c k).
    + destruct (Open f) as [rc|]; [|done].
      destruct (ReadAll rc) as [data err].
      rewrite (IH _ Hl). split.
      * intros [H|[g Hg]]; [|right; exists g; by right].
        destruct (decide (k = n)) as [->|Hne].
        -- right. exists f. by left.
        -- left. by rewrite go_index_insert_ne in H.
      * intros [H|[g Hg]].
        -- left. destruct (decide (k = n)) as [->|Hne].
           ++ by rewrite go_index_insert_eq.
           ++ by rewrite go_index_insert_ne.
        -- apply elem_of_cons in Hg as [Hg|Hg]; [|right; by exists g].
           simplify_eq. left. by rewrite go_index_insert_eq.
  - rewrite (IH c Hl). split.
    + intros [H|[g Hg]]; [by left|]. right. exists g. by right.
    + intros [H|[g Hg]]; [by left|].
      apply elem_of_cons in Hg as [Hg|Hg]; [done|]. right. by exists g.
Qed.

Lemma live_entries_inv l e :
  e ∈ live_entries l → (entry_name e, Some (entry_data e)) ∈ l.
Proof.
  unfold live_entries. intros He.
  apply list_elem_of_omap in He as ([k [data|]] & Hin & Heq); simpl in Heq;
    [|done].
  by simplify_eq.
Qed.

(** The names the reopened store has are the names with a payload in the
    cache that was written. *)
Lemma reopened_index_is_Some env2 cache' s2 disk2 n :
  NewDatastore env2 (Some (ZipArchive (live_entries (map_range cache'))))
    = (Ok s2, disk2) →
  is_Some (go_index (index s2) n) ↔ is_Some (go_index cache' n).
Proof.
  intros Hopen. apply NewDatastore_inv in Hopen as [Hs _]. simpl in Hs.
  split.
  - intros [f Hf]. apply go_index_Some in Hf. rewrite Hs in Hf.
    apply read_keys_index_Some in Hf as [[Hin Hn]|Hf];
      [|simpl in Hf; by rewrite lookup_empty in Hf].
    apply list_elem_of_fmap in Hin as (e & -> & He). simpl in Hn.
    apply live_entries_inv, map_range_elem in He. rewrite Hn in He.
    exists (entry_data e). by apply go_index_Some.
  - intros [v Hv]. apply go_index_Some, map_range_elem, live_entries_elem in Hv.
    destruct (read_keys_index_named
                (map (zip_File env2) (live_entries (map_range cache')))
                {| index := ∅; cache := ∅; modified := false |} n) as [f Hf].
    { rewrite map_map. apply list_elem_of_fmap.
      by exists {| entry_name := n; entry_data := v |}. }
    rewrite <- Hs in Hf. exists f. by apply go_index_Some.
Qed.

(** X15. A successful rewrite keeps exactly the records the store had at
    close: after a successful reopen, [Has] answers for every valid key
    what it answered just before [Close]; deleted records are gone and
    no other record is lost. *)
Theorem rewrite_keeps_the_names (env1 env2 : Env) (s s2 : ZipDatastore)
    (disk disk1 disk2 : Disk) (key : Key) (n : string) :
  modified s = true →
  Close env1 s disk = (None, disk1) →
  NewDatastore env2 disk1 = (Ok s2, disk2) →
  dsKeyToCidString key = Ok n →
  Has s2 key = Has s key.
Proof.
  intros Hm Hclose Hopen Hk.
  destruct (Close_rewrite_inv _ _ _ _ Hm Hclose) as (cache' & Hload & ->).
  pose proof (NewDatastore_fresh _ _ _ _ Hopen) as [_ Hc2].
  pose proof (reopened_index_is_Some _ _ _ _ n Hopen) as H2.
  pose proof (load_loop_is_Some _ _ _ n Hload) as H1.
  unfold Has, has. rewrite Hk, Hc2, go_index_empty. simpl. f_equal.
  apply Bool.eq_iff_eq_true. rewrite orb_true_iff.
  assert (∀ {V} (o : option V), not_nil o = true ↔ is_Some o) as Hnn.
  { intros V [v|]; simpl; split; (done || by intros [? ?]). }
  rewrite !Hnn, H2, H1. apply or_iff_compat_l. split.
  - intros [f Hf]. apply map_range_elem, go_index_Some in Hf. by exists f.
  - intros [f Hf]. exists f. by apply map_range_elem, go_index_Some.
Qed.

(** X16. A record of the archive that the session did not touch survives
    a rewrite: when its entry reads in full at close, [Get] after the
    reopen returns the same bytes and [GetSize] their length. *)
Theorem rewrite_keeps_archived_payload (env1 env2 : Env) (s s2 : ZipDatastore)
    (disk disk1 disk2 : Disk) (key : Key) (n : string) (f : ZipFile)
    (rc : ReadCloser) (data : bytes) :
  modified s = true →
  dsKeyToCidString key = Ok n →
  index s !! n = Some (Some f) →
  go_index (cache s) n = None →
  Open f = Ok rc →
  ReadAll rc = (data, None) →
  Close env1 s disk = (None, disk1) →
  NewDatastore env2 disk1 = (Ok s2, disk2) →
  reads_back env2 {| entry_name := n; entry_data := data |} →
  snd (Get s2 key) = Ok (Some data) ∧
  GetSize s2 key = Ok (Z.of_nat (length data)).
Proof.
  intros Hm Hk Hi Hc Hf Hrc Hclose Hopen Hread.
  destruct (Close_rewrite_inv _ _ _ _ Hm Hclose) as (cache' & Hload & ->).
  assert (cache' !! n = Some (Some data)) as Hc'.
  { eapply load_loop_reads; try done.
    - apply map_range_NoDup.
    - by apply map_range_elem. }
  pose proof (NewDatastore_fresh _ _ _ _ Hopen) as [_ Hc2].
  apply NewDatastore_inv in Hopen as [Hs2 _]. simpl in Hs2.
  set (e := {| entry_name := n; entry_data := data |}) in *.
  assert (index s2 !! n = Some (Some (zip_File env2 e))) as Hidx.
  { rewrite Hs2. apply (read_keys_index_lookup _ _ (zip_File env2 e)).
    - rewrite map_map.
      change (NoDup (map entry_name (live_entries (map_range cache')))).
      apply (sublist_NoDup _ (map fst (map_range cache')));
        [apply map_range_NoDup|apply live_entries_names].
    - apply list_elem_of_fmap. exists e. split; [done|].
      apply live_entries_elem. by apply map_range_elem. }
  apply go_index_Some in Hidx.
  unfold Get, GetSize. rewrite Hk, Hc2, go_index_empty, Hidx.
  simpl. rewrite Hread. simpl. by rewrite go_index_insert_eq.
Qed.

Lemma load_loop_open_fails l c n f e :
  NoDup (map fst l) →
  (n, Some f) ∈ l →
  go_index c n = None →
  Open f = Err e →
  ∃ e' k g, load_loop l c = Err e' ∧ (k, Some g) ∈ l ∧ Open g = Err e'.
Proof.
  revert c. induction l as [|[k o] l IH]; intros c Hnd Hin Hnil Hf.
  - by apply elem_of_nil in Hin.
  - simpl in Hnd. apply NoDup_cons in Hnd as [Hk Hnd].
    apply elem_of_cons in Hin as [Heq|Hin].
    + injection Heq as <- <-. simpl. rewrite Hnil. simpl. rewrite Hf.
      exists e, n, f. split; [done|]. split; [by left|done].
    + assert (k ≠ n) as Hne.
      { intros ->. apply Hk. apply list_elem_of_fmap. by exists (n, Some f). }
      assert (∀ c0, go_index c0 n = None →
                ∃ e' k' g, load_loop l c0 = Err e' ∧
                           (k', Some g) ∈ (k, o) :: l ∧ Open g = Err e') as Hl.
      { intros c0 Hc0. destruct (IH c0 Hnd Hin Hc0 Hf) as (e' & k' & g & ? & ? & ?).
        exists e', k', g. split; [done|]. split; [by right|done]. }
      destruct o as [g|]; simpl; [|by apply Hl].
      destruct (not_nil (go_index c k)); [by apply Hl|].
      destruct (Open g) as [rc|e'] eqn:Hg.
      * destruct (ReadAll rc) as [data err]. apply Hl.
        by rewrite go_index_insert_ne.
      * exists e', k, g. split; [done|]. split; [by left|done].
Qed.

(** X17. When an entry that has to be loaded at close cannot be opened,
    [Close] of a modified store returns the open error of such an entry
    and leaves the file as it was. *)
Theorem Close_returns_open_error (env : Env) (s : ZipDatastore) (disk : Disk)
    (n : string) (f : ZipFile) (e : error) :
  modified s = true →
  index s !! n = Some (Some f) →
  go_index (cache s) n = None →
  Open f = Err e →
  ∃ e' k g, Close env s disk = (Some e', disk) ∧
            index s !! k = Some (Some g) ∧ Open g = Err e'.
Proof.
  intros Hm Hi Hc Hf.
  destruct (load_loop_open_fails (map_range (index s)) (cache s) n f e)
    as (e' & k & g & Hl & Hin & Hg); try done.
  - apply map_range_NoDup.
  - by apply map_range_elem.
  - exists e', k, g. split; [|split; [by apply map_range_elem|done]].
    unfold Close. by rewrite Hm, Hl.
Qed.

Lemma write_loop_Ok_calls env l w w' :
  write_loop env l w = Ok w' →
  ∀ k data, (k, Some data) ∈ l →
    create_header_err env k = None ∧ write_err env k data = None.
Proof.
  revert w. induction l as [|[k [d|]] l IH]; intros w Hw k' data Hin;
    simpl in Hw.
  - by apply elem_of_nil in Hin.
  - destruct (create_header_err env k) eqn:Hc; [done|].
    destruct (write_err env k d) eqn:Hwr; [done|].
    apply elem_of_cons in Hin as [Heq|Hin]; [by simplify_eq|].
    by eapply IH.
  - apply elem_of_cons in Hin as [Heq|Hin]; [done|]. by eapply IH.
Qed.

(** X18. [Close] of a modified store returns no error only when closing
    the handle, truncating the file, creating the header and writing the
    payload of every entry of the new archive, closing the writer and
    closing the new file all succeeded. *)
Theorem Close_success_means_all_written (env : Env) (s : ZipDatastore)
    (disk disk1 : Disk) :
  modified s = true →
  Close env s disk = (None, disk1) →
  file_close_err env = None ∧
  truncate_err env = None ∧
  writer_close_err env = None ∧
  new_file_close_err env = None ∧
  ∀ e, e ∈ disk_entries disk1 →
    create_header_err env (entry_name e) = None ∧
    write_err env (entry_name e) (entry_data e) = None.
Proof.
  intros Hm. unfold Close. rewrite Hm. simpl.
  destruct (load_loop _ _) as [cache'|]; [|done].
  destruct (file_close_err env); [done|]. simpl.
  destruct (truncate_err env); [done|].
  destruct (write_loop _ _ _) as [w|] eqn:Hw; simpl; [|done].
  destruct (writer_close_err env); [done|]. simpl.
  destruct (new_file_close_err env); [done|].
  intros; simplify_eq. repeat (split; [done|]).
  simpl. intros e He.
  pose proof (write_loop_Ok _ _ _ _ Hw) as Hw'. simpl in Hw'. subst w.
  apply live_entries_inv in He.
  by apply (write_loop_Ok_calls _ _ _ _ Hw).
Qed.

(** X19. The archive a successful rewrite leaves holds every name once. *)
Theorem rewritten_names_distinct (env : Env) (s : ZipDatastore)
    (disk disk1 : Disk) :
  modified s = true →
  Close env s disk = (None, disk1) →
  NoDup (map entry_name (disk_entries disk1)).
Proof.
  intros Hm Hclose.
  destruct (Close_rewrite_inv _ _ _ _ Hm Hclose) as (cache' & _ & ->). simpl.
  apply (sublist_NoDup _ (map fst (map_range cache')));
    [apply map_range_NoDup|apply live_entries_names].
Qed.

End RewriteProperties.

(** ** The CID utility methods *)

Section CidMethodProperties.

Context `{codec : CidCodec}.
Variable CidToDsKey : Cid -> Key.

(** X20. With a key encoding that decodes back to the identifier, the
    CID methods see one record per identifier: after [PutCid] of a
    non-nil payload under an identifier whose name is new to the store,
    [HasCid] answers true, [GetCid] returns the payload and [GetSizeCid]
    its length; after [DeleteCid], [HasCid] answers false and [GetCid]
    fails with [ErrNotFound]. *)
Theorem Cid_methods_lifecycle (s : ZipDatastore) (cid : Cid) (n : string)
    (v : bytes) :
  DsKeyToCid (CidToDsKey cid) = Ok cid →
  StringOfBase cid (if decide (Version cid = 0) then Base58BTC else Base32)
    = Ok n →
  fst (has s n) = false →
  let s1 := fst (PutCid CidToDsKey s cid (Some v)) in
  let s2 := fst (DeleteCid CidToDsKey s1 cid) in
  snd (PutCid CidToDsKey s cid (Some v)) = None ∧
  HasCid CidToDsKey s1 cid = (true, None) ∧
  GetCid CidToDsKey s1 cid = (s1, Ok (Some v)) ∧
  GetSizeCid CidToDsKey s1 cid = Ok (Z.of_nat (length v)) ∧
  snd (DeleteCid CidToDsKey s1 cid) = None ∧
  HasCid CidToDsKey s2 cid = (false, None) ∧
  snd (GetCid CidToDsKey s2 cid) = Err ErrNotFound.
Proof.
  intros Hrt Hn Hnew.
  assert (dsKeyToCidString (CidToDsKey cid) = Ok n) as Hk.
  { unfold dsKeyToCidString. rewrite Hrt.
    destruct (Z.eqb_spec (Version cid) 0); case_decide; done. }
  unfold PutCid, HasCid, GetCid, GetSizeCid, DeleteCid.
  unfold Put, Has, Get, GetSize, Delete.
  repeat (rewrite ?Hk, ?Hnew; simpl).
  unfold has.
  by repeat (rewrite ?Hk, ?go_index_insert_eq; simpl).
Qed.

End CidMethodProperties.

(** ** The properties above at the test vectors *)

Section ExtraWitnesses.

Import Vectors ExtraVectors.
#[local] Existing Instance vector_codec.
#[local] Existing Instance listing_rt.

Lemma invalid_key_rejected_witness :
  dsKeyToCidString "/not-a-cid" = Err (ErrExternal 1) ∧
  (Put abc_store "/not-a-cid" (Some (blob "aaaa"))
     = (abc_store, Some (ErrExternal 1)) ∧
   Get abc_store "/not-a-cid" = (abc_store, Err (ErrExternal 1)) ∧
   Has abc_store "/not-a-cid" = (false, Some (ErrExternal 1)) ∧
   Delete abc_store "/not-a-cid" = (abc_store, Some (ErrExternal 1)) ∧
   GetSize abc_store "/not-a-cid" = Err (ErrExternal 1)).
Proof.
  split; [reflexivity|].
  apply (invalid_key_rejected abc_store "/not-a-cid" (ErrExternal 1)
           (Some (blob "aaaa"))).
  reflexivity.
Defined.

Lemma missing_key_not_found_witness :
  dsKeyToCidString key_z = Ok name_z ∧
  ((fst (Has abc_store key_z) = false ↔ GetSize abc_store key_z = Err ErrNotFound) ∧
   (fst (Has abc_store key_z) = false →
    Get abc_store key_z = (abc_store, Err ErrNotFound))).
Proof.
  split; [reflexivity|].
  apply (missing_key_not_found abc_store key_z name_z). reflexivity.
Defined.


Lemma Get_caches_partial_read_witness :
  let s := opened (NewDatastore flaky_env abc_disk) in
  let f := zip_File flaky_env entry_a in
  let rc := {| ReadAll := (blob "aa", Some (ErrExternal 5)) |} in
  dsKeyToCidString key_a = Ok name_a ∧
  go_index (cache s) name_a = None ∧
  go_index (index s) name_a = Some f ∧
  Open f = Ok rc ∧
  ReadAll rc = (blob "aa", Some (ErrExternal 5)) ∧
  (snd (Get s key_a) = Err (ErrExternal 5) ∧
   snd (Get (fst (Get s key_a)) key_a) = Ok (Some (blob "aa")) ∧
   GetSize (fst (Get s key_a)) key_a = Ok (Z.of_nat (length (blob "aa")))).
Proof.
  intros s f rc.
  assert (go_index (index s) name_a = Some f) as Hi by (vm_compute; reflexivity).
  assert (Open f = Ok rc) as Hf by (vm_compute; reflexivity).
  split; [reflexivity|]. split; [reflexivity|]. split; [exact Hi|].
  split; [exact Hf|]. split; [reflexivity|].
  exact (Get_caches_partial_read s key_a name_a f rc (blob "aa") (ErrExternal 5)
           eq_refl eq_refl Hi Hf eq_refl).
Defined.

Lemma other_names_untouched_witness :
  let s' := fst (Delete abc_store key_a) in
  dsKeyToCidString key_a = Ok name_a ∧
  dsKeyToCidString key_b = Ok name_b ∧
  name_a ≠ name_b ∧
  (Has s' key_b = Has abc_store key_b ∧
   snd (Get s' key_b) = snd (Get abc_store key_b) ∧
   GetSize s' key_b = GetSize abc_store key_b).
Proof.
  intros s'.
  assert (name_a ≠ name_b) as Hne by (intros H; discriminate H).
  split; [reflexivity|]. split; [reflexivity|]. split; [exact Hne|].
  assert (dsKeyToCidString key_a = Ok name_a) as Ha by reflexivity.
  assert (dsKeyToCidString key_b = Ok name_b) as Hb by reflexivity.
  apply (other_names_untouched abc_store key_a key_b name_a name_b None
           Ha Hb Hne s').
  right; left; reflexivity.
Defined.

Lemma opened_store_has_archive_names_witness :
  NewDatastore quiet_env abc_disk = (Ok abc_store, abc_disk) ∧
  dsKeyToCidString key_b = Ok name_b ∧
  (fst (Has abc_store key_b) = true ↔
   name_b ∈ map entry_name (disk_entries abc_disk)).
Proof.
  assert (NewDatastore quiet_env abc_disk = (Ok abc_store, abc_disk)) as H
    by (vm_compute; reflexivity).
  split; [exact H|]. split; [reflexivity|].
  exact (opened_store_has_archive_names quiet_env abc_disk abc_disk abc_store
           key_b name_b H eq_refl).
Defined.

Lemma last_entry_of_a_name_wins_witness :
  let disk := Some (ZipArchive ([stale_a] ++ entry_a :: [entry_b])) in
  let s := opened (NewDatastore quiet_env disk) in
  NewDatastore quiet_env disk = (Ok s, disk) ∧
  dsKeyToCidString key_a = Ok (entry_name entry_a) ∧
  (entry_name entry_a ∉ map entry_name [entry_b]) ∧
  reads_back quiet_env entry_a ∧
  (snd (Get s key_a) = Ok (Some (entry_data entry_a)) ∧
   GetSize s key_a = Ok (Z.of_nat (length (entry_data entry_a)))).
Proof.
  intros disk s.
  assert (NewDatastore quiet_env disk = (Ok s, disk)) as H
    by (vm_compute; reflexivity).
  assert (entry_name entry_a ∉ map entry_name [entry_b]) as Hlast.
  { intros Hin. apply elem_of_cons in Hin as [Hin|Hin]; [discriminate Hin|].
    exact (proj1 (elem_of_nil _) Hin). }
  split; [exact H|]. split; [reflexivity|]. split; [exact Hlast|].
  split; [reflexivity|].
  exact (last_entry_of_a_name_wins quiet_env [stale_a] [entry_b] entry_a s disk
           key_a H eq_refl Hlast eq_refl).
Defined.

Lemma quiet_env_reads_back (l : list Entry) :
  ∀ e, e ∈ l → reads_back quiet_env e.
Proof. intros e _. reflexivity. Defined.

Lemma archived_payload_served_witness :
  let f := zip_File quiet_env entry_a in
  NewDatastore quiet_env abc_disk = (Ok abc_store, abc_disk) ∧
  dsKeyToCidString key_a = Ok name_a ∧
  index (run_ops abc_store mixed_ops) !! name_a = Some (Some f) ∧
  ∃ e, e ∈ disk_entries abc_disk ∧ entry_name e = name_a ∧
       snd (Get (run_ops abc_store mixed_ops) key_a) = Ok (Some (entry_data e)) ∧
       GetSize (run_ops abc_store mixed_ops) key_a
         = Ok (Z.of_nat (length (entry_data e))).
Proof.
  intros f.
  assert (NewDatastore quiet_env abc_disk = (Ok abc_store, abc_disk)) as H
    by (vm_compute; reflexivity).
  assert (index (run_ops abc_store mixed_ops) !! name_a = Some (Some f)) as Hi
    by (vm_compute; reflexivity).
  split; [exact H|]. split; [reflexivity|]. split; [exact Hi|].
  exact (archived_payload_served quiet_env abc_disk abc_disk abc_store mixed_ops
           key_a name_a f H (quiet_env_reads_back _) eq_refl Hi).
Defined.

Lemma GetSize_matches_Get_witness :
  let s' := fst (Get (run_ops abc_store mixed_ops) key_a) in
  NewDatastore quiet_env abc_disk = (Ok abc_store, abc_disk) ∧
  Get (run_ops abc_store mixed_ops) key_a = (s', Ok (Some (blob "aaaa"))) ∧
  (GetSize (run_ops abc_store mixed_ops) key_a
     = Ok (Z.of_nat (length (blob "aaaa"))) ∧
   GetSize s' key_a = Ok (Z.of_nat (length (blob "aaaa")))).
Proof.
  intros s'.
  assert (NewDatastore quiet_env abc_disk = (Ok abc_store, abc_disk)) as H
    by (vm_compute; reflexivity).
  assert (Get (run_ops abc_store mixed_ops) key_a
          = (s', Ok (Some (blob "aaaa")))) as HG by (vm_compute; reflexivity).
  split; [exact H|]. split; [exact HG|].
  exact (GetSize_matches_Get quiet_env abc_disk abc_disk abc_store mixed_ops
           key_a s' (blob "aaaa") H (quiet_env_reads_back _) HG).
Defined.

Lemma session_without_put_keeps_file_witness :
  let ops := [OpDelete key_b; OpGet key_a; OpHas key_c] in
  NewDatastore quiet_env abc_disk = (Ok abc_store, abc_disk) ∧
  forallb (fun op => negb (is_put op)) ops = true ∧
  (modified (run_ops abc_store ops) = false ∧
   Close quiet_env (run_ops abc_store ops) abc_disk
     = (file_close_err quiet_env, abc_disk)).
Proof.
  intros ops.
  assert (NewDatastore quiet_env abc_disk = (Ok abc_store, abc_disk)) as H
    by (vm_compute; reflexivity).
  split; [exact H|]. split; [reflexivity|].
  exact (session_without_put_keeps_file quiet_env abc_disk abc_disk abc_store
           ops H eq_refl).
Defined.

Lemma new_store_without_put_not_reopenable_witness :
  let s := opened (NewDatastore quiet_env None) in
  let ops := [OpDelete key_a; OpGet key_b] in
  NewDatastore quiet_env None = (Ok s, Some NotZip) ∧
  forallb (fun op => negb (is_put op)) ops = true ∧
  (snd (Close quiet_env (run_ops s ops) (Some NotZip)) = Some NotZip ∧
   ∃ e, fst (NewDatastore quiet_env
               (snd (Close quiet_env (run_ops s ops) (Some NotZip)))) = Err e ∧
        (stat_err quiet_env = None → open_file_err quiet_env = None →
         e = ErrFormat)).
Proof.
  intros s ops.
  assert (NewDatastore quiet_env None = (Ok s, Some NotZip)) as H
    by (vm_compute; reflexivity).
  split; [exact H|]. split; [reflexivity|].
  exact (new_store_without_put_not_reopenable quiet_env quiet_env (Some NotZip)
           s ops H eq_refl).
Defined.

Lemma rewrite_keeps_the_names_witness :
  let s := run_ops abc_store modify_ops in
  let disk1 := snd (Close quiet_env s abc_disk) in
  let s2 := opened (NewDatastore quiet_env disk1) in
  modified s = true ∧
  Close quiet_env s abc_disk = (None, disk1) ∧
  NewDatastore quiet_env disk1 = (Ok s2, disk1) ∧
  dsKeyToCidString key_b = Ok name_b ∧
  Has s2 key_b = Has s key_b.
Proof.
  intros s disk1 s2.
  assert (Close quiet_env s abc_disk = (None, disk1)) as Hc
    by (vm_compute; reflexivity).
  assert (NewDatastore quiet_env disk1 = (Ok s2, disk1)) as Ho
    by (vm_compute; reflexivity).
  split; [reflexivity|]. split; [exact Hc|]. split; [exact Ho|].
  split; [reflexivity|].
  exact (rewrite_keeps_the_names quiet_env quiet_env s s2 abc_disk disk1 disk1
           key_b name_b eq_refl Hc Ho eq_refl).
Defined.

Lemma rewrite_keeps_archived_payload_witness :
  let s := run_ops abc_store modify_ops in
  let disk1 := snd (Close quiet_env s abc_disk) in
  let s2 := opened (NewDatastore quiet_env disk1) in
  let f := zip_File quiet_env entry_a in
  let rc := {| ReadAll := (blob "aaaa", None) |} in
  modified s = true ∧
  dsKeyToCidString key_a = Ok name_a ∧
  index s !! name_a = Some (Some f) ∧
  go_index (cache s) name_a = None ∧
  Open f = Ok rc ∧
  ReadAll rc = (blob "aaaa", None) ∧
  Close quiet_env s abc_disk = (None, disk1) ∧
  NewDatastore quiet_env disk1 = (Ok s2, disk1) ∧
  reads_back quiet_env {| entry_name := name_a; entry_data := blob "aaaa" |} ∧
  (snd (Get s2 key_a) = Ok (Some (blob "aaaa")) ∧
   GetSize s2 key_a = Ok (Z.of_nat (length (blob "aaaa")))).
Proof.
  intros s disk1 s2 f rc.
  assert (index s !! name_a = Some (Some f)) as Hi by (vm_compute; reflexivity).
  assert (go_index (cache s) name_a = None) as Hn by (vm_compute; reflexivity).
  assert (Close quiet_env s abc_disk = (None, disk1)) as Hc
    by (vm_compute; reflexivity).
  assert (NewDatastore quiet_env disk1 = (Ok s2, disk1)) as Ho
    by (vm_compute; reflexivity).
  split; [reflexivity|]. split; [reflexivity|]. split; [exact Hi|].
  split; [exact Hn|]. split; [reflexivity|]. split; [reflexivity|].
  split; [exact Hc|]. split; [exact Ho|]. split; [reflexivity|].
  exact (rewrite_keeps_archived_payload quiet_env quiet_env s s2 abc_disk disk1
           disk1 key_a name_a f rc (blob "aaaa")
           eq_refl eq_refl Hi Hn eq_refl eq_refl Hc Ho eq_refl).
Defined.

Lemma Close_returns_open_error_witness :
  let s := fst (Put (opened (NewDatastore broken_env abc_disk)) key_z
                  (Some (blob "zzzz"))) in
  let f := zip_File broken_env entry_a in
  modified s = true ∧
  index s !! name_a = Some (Some f) ∧
  go_index (cache s) name_a = None ∧
  Open f = Err (ErrExternal 7) ∧
  ∃ e' k g, Close broken_env s abc_disk = (Some e', abc_disk) ∧
            index s !! k = Some (Some g) ∧ Open g = Err e'.
Proof.
  intros s f.
  assert (index s !! name_a = Some (Some f)) as Hi by (vm_compute; reflexivity).
  assert (go_index (cache s) name_a = None) as Hn by (vm_compute; reflexivity).
  split; [reflexivity|]. split; [exact Hi|]. split; [exact Hn|].
  split; [reflexivity|].
  exact (Close_returns_open_error broken_env s abc_disk name_a f (ErrExternal 7)
           eq_refl Hi Hn eq_refl).
Defined.

Lemma Close_success_means_all_written_witness :
  let s := run_ops abc_store modify_ops in
  let disk1 := snd (Close quiet_env s abc_disk) in
  modified s = true ∧
  Close quiet_env s abc_disk = (None, disk1) ∧
  (file_close_err quiet_env = None ∧
   truncate_err quiet_env = None ∧
   writer_close_err quiet_env = None ∧
   new_file_close_err quiet_env = None ∧
   ∀ e, e ∈ disk_entries disk1 →
     create_header_err quiet_env (entry_name e) = None ∧
     write_err quiet_env (entry_name e) (entry_data e) = None).
Proof.
  intros s disk1.
  assert (Close quiet_env s abc_disk = (None, disk1)) as Hc
    by (vm_compute; reflexivity).
  split; [reflexivity|]. split; [exact Hc|].
  exact (Close_success_means_all_written quiet_env s abc_disk disk1 eq_refl Hc).
Defined.

Lemma rewritten_names_distinct_witness :
  let s := run_ops abc_store modify_ops in
  let disk1 := snd (Close quiet_env s abc_disk) in
  modified s = true ∧
  Close quiet_env s abc_disk = (None, disk1) ∧
  NoDup (map entry_name (disk_entries disk1)).
Proof.
  intros s disk1.
  assert (Close quiet_env s abc_disk = (None, disk1)) as Hc
    by (vm_compute; reflexivity).
  split; [reflexivity|]. split; [exact Hc|].
  exact (rewritten_names_distinct quiet_env s abc_disk disk1 eq_refl Hc).
Defined.

Lemma Put_nil_stores_nothing_witness :
  let s := opened (NewDatastore quiet_env None) in
  let s1 := fst (Put s key_a None) in
  let s2 := fst (Put s key_a (Some [])) in
  dsKeyToCidString key_a = Ok name_a ∧
  fst (has s name_a) = false ∧
  ((snd (Put s key_a None) = None ∧
    modified s1 = true ∧
    Has s1 key_a = (false, None) ∧
    Get s1 key_a = (s1, Err ErrNotFound) ∧
    GetSize s1 key_a = Err ErrNotFound) ∧
   (snd (Put s key_a (Some [])) = None ∧
    Has s2 key_a = (true, None) ∧
    Get s2 key_a = (s2, Ok (Some [])) ∧
    GetSize s2 key_a = Ok 0)).
Proof.
  intros s s1 s2.
  assert (dsKeyToCidString key_a = Ok name_a) as Hk by reflexivity.
  assert (fst (has s name_a) = false) as Hn by reflexivity.
  split; [exact Hk|]. split; [exact Hn|].
  exact (Put_nil_stores_nothing s key_a name_a Hk Hn).
Defined.

Lemma Cid_methods_lifecycle_witness :
  let s := opened (NewDatastore quiet_env None) in
  let s1 := fst (PutCid vector_CidToDsKey s cid_a (Some (blob "aaaa"))) in
  let s2 := fst (DeleteCid vector_CidToDsKey s1 cid_a) in
  DsKeyToCid (vector_CidToDsKey cid_a) = Ok cid_a ∧
  StringOfBase cid_a
    (if decide (Version cid_a = 0) then Base58BTC else Base32) = Ok name_a ∧
  fst (has s name_a) = false ∧
  (snd (PutCid vector_CidToDsKey s cid_a (Some (blob "aaaa"))) = None ∧
   HasCid vector_CidToDsKey s1 cid_a = (true, None) ∧
   GetCid vector_CidToDsKey s1 cid_a = (s1, Ok (Some (blob "aaaa"))) ∧
   GetSizeCid vector_CidToDsKey s1 cid_a = Ok (Z.of_nat (length (blob "aaaa"))) ∧
   snd (DeleteCid vector_CidToDsKey s1 cid_a) = None ∧
   HasCid vector_CidToDsKey s2 cid_a = (false, None) ∧
   snd (GetCid vector_CidToDsKey s2 cid_a) = Err ErrNotFound).
Proof.
  intros s s1 s2.
  split; [reflexivity|]. split; [reflexivity|]. split; [reflexivity|].
  exact (Cid_methods_lifecycle vector_CidToDsKey s cid_a name_a (blob "aaaa")
           eq_refl eq_refl eq_refl).
Defined.

End ExtraWitnesses.
